(** * Cash closure: daily summary and reconciliation

    A shallow embedding of the cash-closure component ([CashClosure]):
    the date filter of the invoices query, the [dailySummary] aggregation,
    [systemCash], [variance], [handleCreateCashClosure] and what the
    reports show.

    JavaScript numbers are IEEE-754 binary64 values; they are modelled by
    Rocq's primitive floats, which are the same format.  Strings are
    [string], in UTF-8; the plain objects [paymentSummary] and
    [employeeStats] are objects with [Object.prototype] behind them: own
    properties in the order [Object.entries] lists them, the accessor
    [__proto__] and the inherited names. *)

From Stdlib Require Import ZArith Lia Ascii String Floats Sorted.
From stdpp Require Import base option list strings.

Local Open Scope string_scope.
Local Open Scope Z_scope.

(** ** JavaScript numbers *)

Module JS.

(** A number is a binary64 float. *)
Abbreviation number := PrimFloat.float.

Definition add (x y : number) : number := PrimFloat.add x y.
Definition sub (x y : number) : number := PrimFloat.sub x y.

(** [x < y] on numbers: false as soon as one side is NaN. *)
Definition lt (x y : number) : bool := PrimFloat.ltb x y.

Definition isNaN (x : number) : bool := PrimFloat.is_nan x.

(** ToBoolean on a number: falsy exactly for +0, -0 and NaN. *)
Definition truthy (x : number) : bool :=
  negb (PrimFloat.is_nan x || PrimFloat.is_zero x).

(** [x || 0]. *)
Definition or_zero (x : number) : number :=
  if truthy x then x else PrimFloat.zero.

(** ToBoolean on a string: falsy exactly for the empty string. *)
Definition truthy_str (s : string) : bool :=
  match s with EmptyString => false | String _ _ => true end.

(** *** Decimal literals to binary64

    The value of a decimal literal is the rational [n / d] rounded to the
    nearest binary64, ties to even.  The quotient is computed with at
    least 55 significant bits and the remainder gives the rounding
    location. *)

Definition round_ratio (neg : bool) (n d : positive) : number :=
  let k := Z.max 0 (55 + Z.log2 (Zpos d) - Z.log2 (Zpos n)) in
  let num := Zpos n * 2 ^ k in
  let q := num / Zpos d in
  let r := num mod Zpos d in
  let loc :=
    if r =? 0 then loc_Exact else loc_Inexact (2 * r ?= Zpos d) in
  SF2Prim (binary_round_aux prec emax neg q (- k) loc).

(** [m * 10^e] as a number, with the sign [neg]. *)
Definition of_decimal (neg : bool) (m : N) (e : Z) : number :=
  match m with
  | N0 => if neg then PrimFloat.neg_zero else PrimFloat.zero
  | Npos p =>
      if 0 <=? e
      then round_ratio neg (p * Z.to_pos (10 ^ e)) 1
      else round_ratio neg p (Z.to_pos (10 ^ (- e)))
  end.

(** *** parseFloat

    [parseFloat] skips leading white space and reads the longest prefix
    that is a StrDecimalLiteral: an optional sign, then [Infinity] or
    digits with an optional fraction and an optional exponent.  Anything
    after that prefix is ignored; with no such prefix the result is NaN.
    The white space that is skipped is the WhiteSpace and LineTerminator
    of ECMAScript: tab, line feed, vertical tab, form feed, carriage
    return and space, which are one byte each, and U+00A0, U+1680,
    U+2000 to U+200A, U+2028, U+2029, U+202F, U+205F, U+3000 and U+FEFF,
    which are two or three bytes in UTF-8. *)

Definition is_space (c : ascii) : bool :=
  let n := nat_of_ascii c in
  ((9 <=? n)%nat && (n <=? 13)%nat) || (n =? 32)%nat.

(** U+00A0 is C2 A0. *)
Definition is_space2 (c1 c2 : ascii) : bool :=
  ((N_of_ascii c1 =? 194) && (N_of_ascii c2 =? 160))%N.

(** U+1680 is E1 9A 80; U+2000 to U+200A are E2 80 80 to E2 80 8A;
    U+2028, U+2029 and U+202F are E2 80 A8, E2 80 A9 and E2 80 AF; U+205F
    is E2 81 9F; U+3000 is E3 80 80; U+FEFF is EF BB BF. *)
Definition is_space3 (c1 c2 c3 : ascii) : bool :=
  let a := N_of_ascii c1 in
  let b := N_of_ascii c2 in
  let c := N_of_ascii c3 in
  ((a =? 225) && (b =? 154) && (c =? 128)
   || (a =? 226) && (b =? 128)
      && ((128 <=? c) && (c <=? 138) || (c =? 168) || (c =? 169) || (c =? 175))
   || (a =? 226) && (b =? 129) && (c =? 159)
   || (a =? 227) && (b =? 128) && (c =? 128)
   || (a =? 239) && (b =? 187) && (c =? 191))%N.

Definition digit_of (c : ascii) : option N :=
  let n := N_of_ascii c in
  if ((48 <=? n) && (n <=? 57))%N then Some (n - 48)%N else None.

Fixpoint skip_space (s : string) : string :=
  match s with
  | String c1 s1 =>
      if is_space c1 then skip_space s1
      else
        match s1 with
        | String c2 s2 =>
            if is_space2 c1 c2 then skip_space s2
            else
              match s2 with
              | String c3 s3 =>
                  if is_space3 c1 c2 c3 then skip_space s3 else s
              | EmptyString => s
              end
        | EmptyString => s
        end
  | EmptyString => s
  end.

(** Reads a run of digits into the accumulator [acc]; returns the value,
    the number of digits read and the rest of the string. *)
Fixpoint read_digits (s : string) (acc : N) (cnt : nat) : N * nat * string :=
  match s with
  | String c s' =>
      match digit_of c with
      | Some d => read_digits s' (10 * acc + d)%N (S cnt)
      | None => (acc, cnt, s)
      end
  | EmptyString => (acc, cnt, s)
  end.

Definition read_sign (s : string) : bool * string :=
  match s with
  | String "-" s' => (true, s')
  | String "+" s' => (false, s')
  | _ => (false, s)
  end.

(** The exponent part [e], [e+] or [e-] followed by at least one digit;
    0 when there is none. *)
Definition read_exponent (s : string) : Z :=
  match s with
  | String c s' =>
      if (Ascii.eqb c "e" || Ascii.eqb c "E")%char then
        let '(neg, s'') := read_sign s' in
        let '(v, cnt, _) := read_digits s'' 0%N 0%nat in
        match cnt with
        | O => 0
        | S _ => if neg then - Z.of_N v else Z.of_N v
        end
      else 0
  | EmptyString => 0
  end.

(** The literal at the start of a string, if there is one: an infinity,
    or the decimal [m * 10^e] with its sign. *)
Inductive literal : Type :=
  | LitNone
  | LitInfinity (neg : bool)
  | LitDecimal (neg : bool) (m : N) (e : Z).

Definition read_literal (s : string) : literal :=
  let '(neg, s1) := read_sign (skip_space s) in
  if String.prefix "Infinity" s1 then LitInfinity neg
  else
    let '(ip, icnt, s2) := read_digits s1 0%N 0%nat in
    let '(m, fcnt, s3) :=
      match s2 with
      | String "." s2' => read_digits s2' ip 0%nat
      | _ => (ip, 0%nat, s2)
      end in
    (* no digit on either side of the point: not a literal *)
    match icnt, fcnt with
    | O, O => LitNone
    | _, _ => LitDecimal neg m (read_exponent s3 - Z.of_nat fcnt)
    end.

Definition parseFloat (s : string) : number :=
  match read_literal s with
  | LitNone => PrimFloat.nan
  | LitInfinity neg =>
      if neg then PrimFloat.neg_infinity else PrimFloat.infinity
  | LitDecimal neg m e => of_decimal neg m e
  end.

End JS.


(** ** Dates

    [new Date(x).toISOString()] prints the UTC calendar date and time of a
    time value (milliseconds since 1970-01-01T00:00:00Z). *)

Module ISODate.

Definition msPerDay : Z := 86400000.

(** Day number of a time value. *)
Definition Day (t : Z) : Z := t / msPerDay.
Definition TimeWithinDay (t : Z) : Z := t mod msPerDay.

(** Proleptic Gregorian year, month (1-12) and day of month of a day
    number counted from 1970-01-01. *)
Definition civil (day : Z) : Z * Z * Z :=
  let z := day + 719468 in
  let era := z / 146097 in
  let doe := z - era * 146097 in
  let yoe := (doe - doe / 1460 + doe / 36524 - doe / 146096) / 365 in
  let doy := doe - (365 * yoe + yoe / 4 - yoe / 100) in
  let mp := (5 * doy + 2) / 153 in
  let d := doy - (153 * mp + 2) / 5 + 1 in
  let m := if mp <? 10 then mp + 3 else mp - 9 in
  let y := yoe + era * 400 + (if m <=? 2 then 1 else 0) in
  (y, m, d).

Definition digit (n : Z) : ascii := ascii_of_N (48 + Z.to_N (n mod 10)).

(** The last [w] decimal digits of [n], zero padded. *)
Fixpoint pad (w : nat) (n : Z) : string :=
  match w with
  | O => ""
  | S w' => pad w' (n / 10) ++ String (digit n) ""
  end.

(** Four digits for the years 0 to 9999, otherwise a sign and six. *)
Definition year_string (y : Z) : string :=
  if (0 <=? y) && (y <=? 9999) then pad 4 y
  else (if y <? 0 then "-" else "+") ++ pad 6 (Z.abs y).

Definition toISOString (t : Z) : string :=
  let '(y, m, d) := civil (Day t) in
  let ms := TimeWithinDay t in
  year_string y ++ "-" ++ pad 2 m ++ "-" ++ pad 2 d ++ "T"
    ++ pad 2 (ms / 3600000) ++ ":" ++ pad 2 (ms / 60000 mod 60) ++ ":"
    ++ pad 2 (ms / 1000 mod 60) ++ "." ++ pad 3 (ms mod 1000) ++ "Z".

(** [s.split('T')[0]]: what comes before the first [T]. *)
Fixpoint split_T_0 (s : string) : string :=
  match s with
  | EmptyString => ""
  | String c s' => if Ascii.eqb c "T" then "" else String c (split_T_0 s')
  end.

End ISODate.

(** ** Plain objects used as maps

    [const o = {}; o[k] = v; o[k]; Object.entries(o)], for the two
    objects of the component, whose values are entries (objects
    themselves).  Such an object has [Object.prototype] behind it:

    - [o[k] = v] defines an own property, except for the key [__proto__],
      an accessor of [Object.prototype] whose setter makes [v] the
      prototype of [o] and adds no own property;
    - [o[k]] reads the own property; for the key [__proto__] the getter
      gives the prototype; for another name of [Object.prototype] that
      is not an own property it gives the inherited member;
    - [Object.keys], [Object.values] and [Object.entries] list the own
      properties: first those whose key is an array index, in ascending
      numeric order, then the others in the order they were created. *)

Module Obj.

(** The value of a string of decimal digits. *)
Fixpoint digitsValue (s : string) (acc : N) : option N :=
  match s with
  | EmptyString => Some acc
  | String c s' =>
      match JS.digit_of c with
      | Some d => digitsValue s' (10 * acc + d)%N
      | None => None
      end
  end.

(** The array index a key denotes, when it is one: the key is a
    canonical numeric string ([0], or digits that do not start with 0)
    and its value is at most 2^32 - 2. *)
Definition arrayIndex (k : string) : option N :=
  match k with
  | EmptyString => None
  | String c rest =>
      if Ascii.eqb c "0" then
        match rest with EmptyString => Some 0%N | String _ _ => None end
      else
        match digitsValue k 0 with
        | Some n => if (n <=? 4294967294)%N then Some n else None
        | None => None
        end
  end.

Definition isArrayIndex (k : string) : bool :=
  match arrayIndex k with Some _ => true | None => false end.

(** *** Own properties, in the order they are listed *)

Section Own.
Context {V : Type}.

Fixpoint lookup (l : list (string * V)) (k : string) : option V :=
  match l with
  | [] => None
  | (k', v) :: l' => if String.eqb k' k then Some v else lookup l' k
  end.

(** A new value for a property that is there: its place is kept. *)
Fixpoint overwrite (l : list (string * V)) (k : string) (v : V)
  : list (string * V) :=
  match l with
  | [] => []
  | (k', v') :: l' =>
      if String.eqb k' k then (k', v) :: l' else (k', v') :: overwrite l' k v
  end.

(** A new property whose key is the array index [n]: it comes after the
    array indices up to [n] and before everything else. *)
Fixpoint insertIndex (l : list (string * V)) (n : N) (k : string) (v : V)
  : list (string * V) :=
  match l with
  | [] => [(k, v)]
  | (k', v') :: l' =>
      match arrayIndex k' with
      | Some n' =>
          if (n <? n')%N then (k, v) :: l
          else (k', v') :: insertIndex l' n k v
      | None => (k, v) :: l
      end
  end.

(** Defining the own property [k]. *)
Definition define (l : list (string * V)) (k : string) (v : V)
  : list (string * V) :=
  match lookup l k with
  | Some _ => overwrite l k v
  | None =>
      match arrayIndex k with
      | Some n => insertIndex l n k v
      | None => (l ++ [(k, v)])%list
      end
  end.

End Own.

(** *** Objects *)

(** An object of entries: the entry that an assignment to [__proto__]
    has made its prototype, if there was one ([None] stands for
    [Object.prototype]), and its own properties. *)
Record t (V : Type) : Type := mk {
  proto : option V;
  own : list (string * V)
}.
Arguments mk {V} proto own.
Arguments proto {V} _.
Arguments own {V} _.

(** [{}] *)
Definition empty {V} : t V := mk None [].

(** The names of [Object.prototype]: its methods, [constructor] and the
    accessor [__proto__]. *)
Definition prototypeNames : list string :=
  [ "constructor"; "__defineGetter__"; "__defineSetter__"; "hasOwnProperty";
    "__lookupGetter__"; "__lookupSetter__"; "isPrototypeOf";
    "propertyIsEnumerable"; "toString"; "valueOf"; "__proto__";
    "toLocaleString" ].

Definition inherited (k : string) : bool :=
  existsb (String.eqb k) prototypeNames.

(** [o[k]] when it is an entry: the own property [k], or for the key
    [__proto__] the entry that was made the prototype.  [None] when
    [o[k]] is [undefined] or is not an entry (a member of
    [Object.prototype], or [Object.prototype] itself). *)
Definition get {V} (o : t V) (k : string) : option V :=
  if String.eqb k "__proto__" then proto o else lookup (own o) k.

(** [o[k]] taken as a condition: an entry is an object, and so are the
    members of [Object.prototype] and [Object.prototype] itself; what is
    left is [undefined].  (An entry that is the prototype also lends its
    own fields, which are numbers; neither loop of the component reads
    [o[k]] in such a state, see [addEmployee].) *)
Definition truthy {V} (o : t V) (k : string) : bool :=
  match get o k with
  | Some _ => true
  | None => inherited k
  end.

(** [o[k] = v] *)
Definition set {V} (o : t V) (k : string) (v : V) : t V :=
  if String.eqb k "__proto__" then mk (Some v) (own o)
  else mk (proto o) (define (own o) k v).

(** [Object.entries(o)], [Object.keys(o)] and [Object.values(o)]. *)
Definition entries {V} (o : t V) : list (string * V) := own o.
Definition keys {V} (o : t V) : list string := (own o).*1.
Definition values {V} (o : t V) : list V := (own o).*2.

(** *** The order of the keys *)

(** [insertIndex] and [define], on the keys alone. *)
Fixpoint insertIndexKey (ks : list string) (n : N) (k : string)
  : list string :=
  match ks with
  | [] => [k]
  | k' :: ks' =>
      match arrayIndex k' with
      | Some n' =>
          if (n <? n')%N then k :: ks else k' :: insertIndexKey ks' n k
      | None => k :: ks
      end
  end.

Definition insertKey (ks : list string) (k : string) : list string :=
  if decide (k ∈ ks) then ks
  else
    match arrayIndex k with
    | Some n => insertIndexKey ks n k
    | None => (ks ++ [k])%list
    end.

(** The keys of an object whose properties were defined in the order of
    the list. *)
Definition keyOrder (l : list string) : list string :=
  foldl insertKey [] l.

(** Both keys are array indices, and that of [k1] is the smaller. *)
Definition indexLt (k1 k2 : string) : Prop :=
  match arrayIndex k1, arrayIndex k2 with
  | Some n1, Some n2 => (n1 < n2)%N
  | _, _ => False
  end.

End Obj.

(** ** Completions

    A computation either returns or throws. *)

Inductive js_error : Type :=
  | RangeError   (* Date.prototype.toISOString on an invalid date *)
  | Error (message : string).

Inductive completion (A : Type) : Type :=
  | Normal (a : A)
  | Throw (e : js_error).
Arguments Normal {A} a.
Arguments Throw {A} e.

#[global] Instance completion_ret : MRet completion := @Normal.
#[global] Instance completion_bind : MBind completion := fun A B k c =>
  match c with
  | Normal a => k a
  | Throw e => Throw e
  end.

(** ** Data model (shared/schema) *)

(** The [date] field of an invoice as the client receives it: absent
    (null, undefined or the empty string), a string [Date] cannot read, or
    a string denoting the time value [t]. *)
Inductive date_field : Type :=
  | DateMissing
  | DateInvalid
  | DateAt (t : Z).

Record Invoice : Type := {
  id : string;
  date : date_field;
  status : string;
  paid : bool;
  paymentMethod : option string;
  employeeId : string;
  subtotal : string;
  tax : string;
  total : string
}.

Record PaymentMethod : Type := { code : string; pm_name : string }.

Record Employee : Type := { emp_id : string; emp_name : string }.

(** ** The cash-closure component *)

(** The counters [quantity] and [sales] start at 0 and are only
    incremented, once per element of an array: they stay integers far
    below 2^53, where [++] is exact, and are modelled by [nat]. *)
Record PaymentEntry : Type := { quantity : nat; pe_total : JS.number }.
Record EmployeeEntry : Type := { sales : nat; ee_total : JS.number }.

Abbreviation PaymentSummary := (Obj.t PaymentEntry).
Abbreviation EmployeeStats := (Obj.t EmployeeEntry).

Record DailySummary : Type := {
  totalInvoices : nat;
  deliveredInvoices : nat;
  pendingInvoices : nat;
  totalRevenue : JS.number;
  totalSubtotal : JS.number;
  totalTax : JS.number;
  totalItems : nat;
  urgentOrders : nat;
  paymentSummary : PaymentSummary;
  employeeStats : EmployeeStats
}.

(** *** The invoices query: filter by the selected date

<<
  return data.filter((invoice) => {
    if (!invoice.date) return false;
    const invoiceDate = new Date(invoice.date).toISOString().split('T')[0];
    return invoiceDate === selectedDate;
  });
>> *)

Definition invoiceDate (t : Z) : string :=
  ISODate.split_T_0 (ISODate.toISOString t).

Definition dateFilter (selectedDate : string) (invoice : Invoice)
  : completion bool :=
  match date invoice with
  | DateMissing => Normal false
  | DateInvalid => Throw RangeError
  | DateAt t => Normal (String.eqb (invoiceDate t) selectedDate)
  end.

(** [Array.prototype.filter] with a callback that may throw. *)
Fixpoint filterM {A} (f : A -> completion bool) (l : list A)
  : completion (list A) :=
  match l with
  | [] => Normal []
  | x :: l' =>
      keep ← f x;
      r ← filterM f l';
      Normal (if keep : bool then x :: r else r)
  end.

Definition fetchInvoices (data : list Invoice) (selectedDate : string)
  : completion (list Invoice) :=
  filterM (dateFilter selectedDate) data.

(** *** dailySummary *)

Definition isDelivered (invoice : Invoice) : bool :=
  String.eqb (status invoice) "delivered" && paid invoice.

Definition isPending (invoice : Invoice) : bool :=
  negb (paid invoice) && negb (String.eqb (status invoice) "cancelled").

(** [paymentMethods.find(m => m.code === invoice.paymentMethod)?.name
     || 'Pendiente'] *)
Definition methodName (paymentMethods : list PaymentMethod)
    (invoice : Invoice) : string :=
  match List.find (fun m => bool_decide (Some (code m) = paymentMethod invoice))
                  paymentMethods with
  | Some m => if JS.truthy_str (pm_name m) then pm_name m else "Pendiente"
  | None => "Pendiente"
  end.

(** [employees.find(e => e.id === invoice.employeeId)?.name
     || 'Desconocido'] *)
Definition employeeName (employees : list Employee) (invoice : Invoice)
  : string :=
  match List.find (fun e => String.eqb (emp_id e) (employeeId invoice))
                  employees with
  | Some e => if JS.truthy_str (emp_name e) then emp_name e else "Desconocido"
  | None => "Desconocido"
  end.

Definition zeroEntry : PaymentEntry :=
  {| quantity := 0; pe_total := PrimFloat.zero |}.

(** One zeroed entry per payment method, then the entry [Pendiente]:

<<
  paymentMethods.forEach(method => {
    paymentSummary[method.name] = { quantity: 0, total: 0 };
  });
  paymentSummary['Pendiente'] = { quantity: 0, total: 0 };
>> *)
Definition seedPaymentSummary (paymentMethods : list PaymentMethod)
  : PaymentSummary :=
  Obj.set
    (foldl (fun ps method => Obj.set ps (pm_name method) zeroEntry)
           Obj.empty paymentMethods)
    "Pendiente" zeroEntry.

(** The body of the first [deliveredInvoices.forEach]:

<<
  if (paymentSummary[methodName]) {
    paymentSummary[methodName].quantity++;
    paymentSummary[methodName].total += parseFloat(invoice.total);
  }
>>

    The two counters are those of the object that [paymentSummary
    [methodName]] is: an own entry, or for the name [__proto__] the entry
    that is the prototype. *)
Definition addPayment (paymentMethods : list PaymentMethod)
    (ps : PaymentSummary) (invoice : Invoice) : PaymentSummary :=
  let name := methodName paymentMethods invoice in
  match Obj.get ps name with
  | Some e =>
      Obj.set ps name
        {| quantity := S (quantity e);
           pe_total := JS.add (pe_total e) (JS.parseFloat (total invoice)) |}
  | None => ps
  end.

Definition zeroEmployeeEntry : EmployeeEntry :=
  {| sales := 0; ee_total := PrimFloat.zero |}.

(** The body of the second [deliveredInvoices.forEach]:

<<
  if (!employeeStats[employeeName]) {
    employeeStats[employeeName] = { sales: 0, total: 0 };
  }
  employeeStats[employeeName].sales++;
  employeeStats[employeeName].total += parseFloat(invoice.total);
>>

    When the name is one of [Object.prototype] and no own property, the
    condition finds the inherited member, no entry is made, and the two
    counters are written on that member: the statistics stay as they
    are.  The prototype of [employeeStats] stays [Object.prototype], as
    [__proto__] is never assigned. *)
Definition addEmployee (employees : list Employee)
    (es : EmployeeStats) (invoice : Invoice) : EmployeeStats :=
  let name := employeeName employees invoice in
  let es1 :=
    if Obj.truthy es name then es else Obj.set es name zeroEmployeeEntry in
  match Obj.get es1 name with
  | Some e =>
      Obj.set es1 name
        {| sales := S (sales e);
           ee_total := JS.add (ee_total e) (JS.parseFloat (total invoice)) |}
  | None => es1
  end.

(** [list.reduce((sum, inv) => sum + parseFloat(inv.field), 0)] *)
Definition sumField (field : Invoice -> string) (l : list Invoice)
  : JS.number :=
  foldl (fun sum inv => JS.add sum (JS.parseFloat (field inv)))
        PrimFloat.zero l.

Definition dailySummary (invoices : list Invoice)
    (paymentMethods : list PaymentMethod) (employees : list Employee)
  : DailySummary :=
  let deliveredList := List.filter isDelivered invoices in
  let pendingList := List.filter isPending invoices in
  let ps :=
    foldl (addPayment paymentMethods)
          (seedPaymentSummary paymentMethods) deliveredList in
  let es := foldl (addEmployee employees) Obj.empty deliveredList in
  {| totalInvoices := length invoices;
     deliveredInvoices := length deliveredList;
     pendingInvoices := length pendingList;
     totalRevenue := sumField total deliveredList;
     totalSubtotal := sumField subtotal deliveredList;
     totalTax := sumField tax deliveredList;
     totalItems := length invoices;
     urgentOrders := 0;
     paymentSummary := ps;
     employeeStats := es |}.

(** *** systemCash and variance

<<
  if (!paymentMethods.length) return 0;
  const cashMethod = paymentMethods.find((m) => m.code === 'cash');
  if (!cashMethod) return 0;
  const cashPayments = dailySummary.paymentSummary[cashMethod.name];
  return parseFloat(openingCash) + (cashPayments?.total || 0);
>> *)

Definition systemCash (openingCash : string) (ps : PaymentSummary)
    (paymentMethods : list PaymentMethod) : JS.number :=
  match paymentMethods with
  | [] => PrimFloat.zero
  | _ =>
      match List.find (fun m => String.eqb (code m) "cash") paymentMethods with
      | None => PrimFloat.zero
      | Some cashMethod =>
          let cashPayments := Obj.get ps (pm_name cashMethod) in
          JS.add (JS.parseFloat openingCash)
            (match cashPayments with
             | Some e => JS.or_zero (pe_total e)
             | None => PrimFloat.zero
             end)
      end
  end.

(** [(parseFloat(countedCash) || 0) - systemCash] *)
Definition variance (countedCash : string) (systemCash : JS.number)
  : JS.number :=
  let counted := JS.or_zero (JS.parseFloat countedCash) in
  JS.sub counted systemCash.

(** *** The component's state and what it renders *)

Record State : Type := {
  selectedDate : string;
  openingCash : string;
  countedCash : string;
  notes : string;
  invoices : list Invoice;
  paymentMethods : list PaymentMethod;
  employees : list Employee
}.

(** The three memoised values, each computed from its dependency list. *)
Record Rendered : Type := {
  r_dailySummary : DailySummary;
  r_systemCash : JS.number;
  r_variance : JS.number
}.

Definition render (st : State) : Rendered :=
  let ds := dailySummary (invoices st) (paymentMethods st) (employees st) in
  let sc := systemCash (openingCash st) (paymentSummary ds) (paymentMethods st) in
  {| r_dailySummary := ds;
     r_systemCash := sc;
     r_variance := variance (countedCash st) sc |}.

(** *** handleCreateCashClosure

<<
  if (!countedCash || parseFloat(countedCash) < 0) {
    toast({ title: ..., description: ..., variant: "destructive" });
    return;
  }
  createCashClosureMutation.mutate({
    closingDate: selectedDate,
    openingCash: parseFloat(openingCash) || 0,
    countedCash: parseFloat(countedCash),
    notes: notes || undefined,
  });
>> *)

Record CreateData : Type := {
  closingDate : string;
  cd_openingCash : JS.number;
  cd_countedCash : JS.number;
  cd_notes : option string
}.

(** What the handler does: it shows a destructive toast and returns, or
    it invokes the create mutation. *)
Inductive action : Type :=
  | Toast (title description : string)
  | Mutate (data : CreateData).

Definition handleCreateCashClosure (st : State) : action :=
  if negb (JS.truthy_str (countedCash st))
     || JS.lt (JS.parseFloat (countedCash st)) PrimFloat.zero
  then Toast "❌ Error de validación"
             "Debe ingresar el dinero contado físicamente"
  else
    Mutate
      {| closingDate := selectedDate st;
         cd_openingCash := JS.or_zero (JS.parseFloat (openingCash st));
         cd_countedCash := JS.parseFloat (countedCash st);
         cd_notes := if JS.truthy_str (notes st) then Some (notes st) else None |}.

(** ** Sums the claims speak of *)

(** The sum of a list of numbers, left to right from 0. *)
Definition fsum (l : list JS.number) : JS.number :=
  foldl JS.add PrimFloat.zero l.

(** [sum(paymentSummary[*].quantity)] and [sum(paymentSummary[*].total)]. *)
Definition sumQuantity (ps : PaymentSummary) : nat :=
  foldl (fun n e => (n + quantity e)%nat) 0%nat (Obj.values ps).

Definition sumTotal (ps : PaymentSummary) : JS.number :=
  fsum (pe_total <$> Obj.values ps).

(** The local calendar date of a time value, for a zone whose
    [getTimezoneOffset()] is [tz] minutes (UTC minus local time). *)
Definition localDate (tz : Z) (t : Z) : string :=
  invoiceDate (t - tz * 60000).

(** ** Exact decimal sums

    What the sum of decimal amounts is when it is taken exactly: the
    amounts are read as decimals [m * 10^e], added as such, and only the
    result is turned into a number. *)

Definition decimalValue (s : string) : option (Z * Z) :=
  match JS.read_literal s with
  | JS.LitDecimal neg m e => Some (if neg then - Z.of_N m else Z.of_N m, e)
  | _ => None
  end.

Definition decimalAdd (a b : Z * Z) : Z * Z :=
  let e := Z.min a.2 b.2 in
  (a.1 * 10 ^ (a.2 - e) + b.1 * 10 ^ (b.2 - e), e).

Definition exactDecimalSum (l : list string) : option JS.number :=
  r ← foldl (fun acc s => a ← acc; d ← decimalValue s; Some (decimalAdd a d))
            (Some (0, 0)) l;
  Some (JS.of_decimal (r.1 <? 0) (Z.abs_N r.1) r.2).

(** ** Date filters

    The date the code compares, and the local date the description
    speaks of. *)

(** The UTC calendar date of a day number, as [YYYY-MM-DD]. *)
Definition utcDateString (day : Z) : string :=
  let '(y, m, d) := ISODate.civil day in
  ISODate.year_string y ++ "-" ++ ISODate.pad 2 m ++ "-" ++ ISODate.pad 2 d.

Definition utcDateFilter (selectedDate : string) (invoice : Invoice) : bool :=
  match date invoice with
  | DateAt t => String.eqb (utcDateString (ISODate.Day t)) selectedDate
  | _ => false
  end.

Definition localDateFilter (tz : Z) (selectedDate : string)
    (invoice : Invoice) : bool :=
  match date invoice with
  | DateAt t => String.eqb (localDate tz t) selectedDate
  | _ => false
  end.

Definition hasInvalidDate (invoice : Invoice) : bool :=
  match date invoice with DateInvalid => true | _ => false end.

(** No character of the string is a [T]. *)
Fixpoint no_T (s : string) : bool :=
  match s with
  | EmptyString => true
  | String c s' => negb (Ascii.eqb c "T") && no_T s'
  end.

(** ** Groups and buckets *)

(** The members of [l] whose key is [k], in order. *)
Definition group {A} (f : A -> string) (l : list A) (k : string) : list A :=
  List.filter (fun x => String.eqb (f x) k) l.
Arguments group {A} f l k : simpl never.

(** What the entry of key [k] holds after the delivered invoices [l]: how
    many of them resolve to [k], and the sum of their totals. *)
Definition bucket (paymentMethods : list PaymentMethod) (l : list Invoice)
    (k : string) : PaymentEntry :=
  {| quantity := length (group (methodName paymentMethods) l k);
     pe_total := sumField total (group (methodName paymentMethods) l k) |}.

(** The names the payment summary is seeded with. *)
Definition seededNames (paymentMethods : list PaymentMethod) : list string :=
  ((pm_name <$> paymentMethods) ++ ["Pendiente"])%list.

(** The key is not [__proto__]. *)
Definition notProto (k : string) : bool := negb (String.eqb k "__proto__").

(** The key is no array index. *)
Definition isName (k : string) : bool := negb (Obj.isArrayIndex k).

(** The invoices that are counted in an entry: those of [l] that resolve
    to another payment-method name than [__proto__], and those whose
    employee name is no name of [Object.prototype]. *)
Definition paymentCounted (paymentMethods : list PaymentMethod)
    (l : list Invoice) : list Invoice :=
  List.filter (fun inv => notProto (methodName paymentMethods inv)) l.

Definition employeeCounted (employees : list Employee)
    (l : list Invoice) : list Invoice :=
  List.filter (fun inv => negb (Obj.inherited (employeeName employees inv))) l.

(** Invoices that are neither delivered nor pending. *)
Definition isOther (invoice : Invoice) : bool :=
  negb (isDelivered invoice) && negb (isPending invoice).

(** ** Sample data *)

Definition mkInvoice (d : date_field) (st : string) (p : bool)
    (pm : option string) (emp : string) (sub tx tot : string) : Invoice :=
  {| id := "inv"; date := d; status := st; paid := p; paymentMethod := pm;
     employeeId := emp; subtotal := sub; tax := tx; total := tot |}.

(** A delivered, paid invoice with the given payment method and total. *)
Definition sale (pm : string) (tot : string) : Invoice :=
  mkInvoice DateMissing "delivered" true (Some pm) "e1" tot "0.00" tot.

Definition samplePaymentMethods : list PaymentMethod :=
  [ {| code := "cash"; pm_name := "Efectivo" |};
    {| code := "card"; pm_name := "Tarjeta" |} ].

Definition sampleEmployees : list Employee :=
  [ {| emp_id := "e1"; emp_name := "Ana" |} ].

(** Three sales, the first and the last in cash. *)
Definition regroupInvoices : list Invoice :=
  [ sale "cash" "0.10"; sale "card" "0.10"; sale "cash" "1.10" ].

(** Two cash sales of 0.10 and 0.20. *)
Definition driftInvoices : list Invoice :=
  [ sale "cash" "0.10"; sale "cash" "0.20" ].

(** Two cash sales of one unit after a very large one. *)
Definition largeInvoices : list Invoice :=
  [ sale "cash" "9007199254740992.00"; sale "cash" "1.00"; sale "cash" "1.00" ].

(** An invoice taken on 2024-01-15 at 01:30 UTC, which is 2024-01-14 at
    21:30 in Santo Domingo (UTC-4, [getTimezoneOffset()] = 240). *)
Definition lateInvoice : Invoice :=
  mkInvoice (DateAt 1705282200000) "delivered" true (Some "cash") "e1"
            "50.00" "0.00" "50.00".

(** A state of the form: counted cash [counted], opening cash [opening]. *)
Definition formState (opening counted : string) : State :=
  {| selectedDate := "2024-01-15"; openingCash := opening;
     countedCash := counted; notes := "";
     invoices := [sale "cash" "50.00"];
     paymentMethods := samplePaymentMethods;
     employees := sampleEmployees |}.

(** ** What the reports show *)

(** The payment rows of the screen, the printout and the export:
    [Object.entries(dailySummary.paymentSummary)
       .filter(([_, data]) => data.quantity > 0)] *)
Definition displayedPayments (ps : PaymentSummary)
  : list (string * PaymentEntry) :=
  List.filter (fun '(_, data) => (0 <? quantity data)%nat) (Obj.entries ps).

(** The quantities of the rows, added up. *)
Definition rowsQuantity (rows : list (string * PaymentEntry)) : nat :=
  foldl (fun n e => (n + quantity e)%nat) 0%nat rows.*2.

(** [Object.keys(dailySummary.employeeStats).length === 0], the test for
    the notice that the date has no sales. *)
Definition noSales (es : EmployeeStats) : bool :=
  (length (Obj.keys es) =? 0)%nat.

Definition sumSales (es : EmployeeStats) : nat :=
  foldl (fun n e => (n + sales e)%nat) 0%nat (Obj.values es).

(** The distinct members of a list of keys, each at its first place. *)
Definition addKey (acc : list string) (k : string) : list string :=
  if decide (k ∈ acc) then acc else (acc ++ [k])%list.

Definition firstOccurrences (l : list string) : list string :=
  foldl addKey [] l.

(** What the entry of the name [k] holds after the delivered invoices
    [l]. *)
Definition employeeBucket (employees : list Employee) (l : list Invoice)
    (k : string) : EmployeeEntry :=
  {| sales := length (group (employeeName employees) l k);
     ee_total := sumField total (group (employeeName employees) l k) |}.

(** An invoice taken on 2024-01-14 at 12:00 UTC. *)
Definition earlyInvoice : Invoice :=
  mkInvoice (DateAt 1705233600000) "delivered" true (Some "card") "e1"
            "20.00" "0.00" "20.00".

(** ** Days and dates *)

(** The time values a [Date] can hold: 100 000 000 days on either side
    of the epoch. *)
Definition validTime (t : Z) : Prop :=
  -8640000000000000 <= t <= 8640000000000000.

Definition validDay (day : Z) : Prop := -100000000 <= day <= 100000000.

(** The day number of a proleptic Gregorian date, the inverse of
    [ISODate.civil]. *)
Definition daysFromCivil (y m d : Z) : Z :=
  let y' := if m <=? 2 then y - 1 else y in
  let era := y' / 400 in
  let yoe := y' - era * 400 in
  let mp := if 2 <? m then m - 3 else m + 9 in
  let doy := (153 * mp + 2) / 5 + d - 1 in
  let doe := yoe * 365 + yoe / 4 - yoe / 100 + doy in
  era * 146097 + doe - 719468.

(** The digit a character stands for. *)
Definition digitValue (c : ascii) : Z := Z.of_N (N_of_ascii c) - 48.

(** The first value of [selectedDate]:
    [new Date().toISOString().split('T')[0]], at the time [now]. *)
Definition initialSelectedDate (now : Z) : string := invoiceDate now.

(** ** The variance panel

<<
  {variance >= 0 ? <TrendingUp /> : <TrendingDown />}
  {Math.abs(variance) < 10 ? '✅ Cuadrado' :
   Math.abs(variance) < 50 ? '⚠️ Diferencia Menor' :
   '❌ Diferencia Mayor'}
>> *)

Inductive trend : Type := TrendingUp | TrendingDown.

(** [x >= y] on numbers: false as soon as one side is NaN. *)
Definition numberGe (x y : JS.number) : bool := PrimFloat.leb y x.

Definition varianceTrend (variance : JS.number) : trend :=
  if numberGe variance PrimFloat.zero then TrendingUp else TrendingDown.

Definition varianceStatus (variance : JS.number) : string :=
  if JS.lt (PrimFloat.abs variance) 10%float then "✅ Cuadrado"
  else if JS.lt (PrimFloat.abs variance) 50%float then "⚠️ Diferencia Menor"
  else "❌ Diferencia Mayor".

(** ** The icon of a payment row

<<
  const method = paymentMethods.find((m) => m.name === methodName);
  const methodCode = method?.code || 'pending';
  ... {getPaymentMethodIcon(methodCode)} ...
>> *)

Inductive icon : Type := Banknote | CreditCard | Landmark | Phone | Clock.

Definition getPaymentMethodIcon (methodCode : string) : icon :=
  if String.eqb methodCode "cash" then Banknote
  else if String.eqb methodCode "card" then CreditCard
  else if String.eqb methodCode "transfer" then Landmark
  else if String.eqb methodCode "mobile_pay" then Phone
  else Clock.

Definition rowMethodCode (paymentMethods : list PaymentMethod)
    (methodName : string) : string :=
  match List.find (fun m => String.eqb (pm_name m) methodName)
                  paymentMethods with
  | Some method => if JS.truthy_str (code method) then code method
                   else "pending"
  | None => "pending"
  end.

(** ** escapeHtml

<<
  const div = document.createElement('div');
  div.textContent = text;
  return div.innerHTML;
>>

    The text becomes the only child of the element, a text node, and
    [innerHTML] serialises it by the escaping rule of HTML for text:
    [&] becomes [&amp;], the no-break space U+00A0 becomes [&nbsp;],
    [<] becomes [&lt;] and [>] becomes [&gt;].  Strings are UTF-8 here, in
    which U+00A0 is the two bytes C2 A0. *)

Definition isNbsp (c1 c2 : ascii) : bool :=
  Ascii.eqb c1 (ascii_of_N 194) && Ascii.eqb c2 (ascii_of_N 160).

Fixpoint escapeHtml (text : string) : string :=
  match text with
  | EmptyString => ""
  | String c rest =>
      if Ascii.eqb c "&" then "&amp;" ++ escapeHtml rest
      else if Ascii.eqb c "<" then "&lt;" ++ escapeHtml rest
      else if Ascii.eqb c ">" then "&gt;" ++ escapeHtml rest
      else
        match rest with
        | String c2 rest2 =>
            if isNbsp c c2 then "&nbsp;" ++ escapeHtml rest2
            else String c (escapeHtml rest)
        | EmptyString => String c ""
        end
  end.

(** No character of the string is [<] or [>]. *)
Fixpoint noAngle (s : string) : bool :=
  match s with
  | EmptyString => true
  | String c s' => negb (Ascii.eqb c "<") && negb (Ascii.eqb c ">") && noAngle s'
  end.

(** The string has no [&], [<] or [>] and no no-break space (the byte
    C2 followed by the byte A0). *)
Fixpoint plainText (s : string) : bool :=
  match s with
  | EmptyString => true
  | String c s' =>
      negb (Ascii.eqb c "&") && negb (Ascii.eqb c "<")
      && negb (Ascii.eqb c ">")
      && match s' with
         | String c2 _ => negb (isNbsp c c2)
         | EmptyString => true
         end
      && plainText s'
  end.

(** * Properties *)

(** ** Numbers *)

Section Numbers.

Lemma isNaN_eq (x : JS.number) : JS.isNaN x = true -> x = PrimFloat.nan.
Proof.
  intros H. apply Prim2SF_inj. unfold Prim2SF at 1.
  unfold JS.isNaN in H. rewrite H. reflexivity.
Qed.

Lemma add_nan_l (x : JS.number) : JS.add PrimFloat.nan x = PrimFloat.nan.
Proof.
  apply Prim2SF_inj. unfold JS.add. rewrite add_spec. reflexivity.
Qed.

Lemma add_nan_r (x : JS.number) : JS.add x PrimFloat.nan = PrimFloat.nan.
Proof.
  apply Prim2SF_inj. unfold JS.add. rewrite add_spec.
  change (Prim2SF PrimFloat.nan) with S754_nan.
  destruct (Prim2SF x); reflexivity.
Qed.

(** Once a sum is NaN it stays NaN. *)
Lemma foldl_add_nan {A} (f : A -> JS.number) (l : list A) :
  foldl (fun s a => JS.add s (f a)) PrimFloat.nan l = PrimFloat.nan.
Proof.
  induction l as [|a l IH]; simpl; [done|]. by rewrite add_nan_l.
Qed.

(** A sum with a NaN term is NaN. *)
Lemma foldl_add_has_nan {A} (f : A -> JS.number) (l : list A) (a : A)
    (acc : JS.number) :
  a ∈ l -> JS.isNaN (f a) = true ->
  foldl (fun s a => JS.add s (f a)) acc l = PrimFloat.nan.
Proof.
  intros Hin Hnan. revert acc.
  induction Hin as [a l | a b l Hin IH]; intros acc; simpl.
  - rewrite (isNaN_eq _ Hnan), add_nan_r. apply foldl_add_nan.
  - apply IH, Hnan.
Qed.

End Numbers.

(** What [parseFloat] reads. *)
Example parseFloat_values :
  JS.parseFloat "25.00" = 25%float
  ∧ JS.parseFloat "  -12.5e2 RD$" = (-1250)%float
  ∧ JS.parseFloat ".5" = 0.5%float
  ∧ JS.parseFloat "1e400" = PrimFloat.infinity
  ∧ JS.parseFloat "-0" = PrimFloat.neg_zero
  ∧ JS.parseFloat "" = PrimFloat.nan
  ∧ JS.parseFloat "abc" = PrimFloat.nan
  ∧ JS.parseFloat "." = PrimFloat.nan
  ∧ JS.add (JS.parseFloat "0.1") (JS.parseFloat "0.2")
    = JS.parseFloat "0.30000000000000004".
Proof. by vm_compute. Qed.

(** ** Objects *)

(** *** Own properties *)

Section OwnProperties.
Context {V : Type}.
Implicit Types (l : list (string * V)) (k : string) (v : V).

Lemma lookup_Some_keys l k v : Obj.lookup l k = Some v -> k ∈ l.*1.
Proof.
  induction l as [|[k' v'] l IH]; simpl; [done|].
  destruct (String.eqb k' k) eqn:E.
  - apply String.eqb_eq in E. subst. intros _. apply list_elem_of_here.
  - intros H. apply list_elem_of_further, IH, H.
Qed.

Lemma keys_lookup_Some l k : k ∈ l.*1 -> is_Some (Obj.lookup l k).
Proof.
  induction l as [|[k' v'] l IH]; simpl.
  - intros H. by apply elem_of_nil in H.
  - intros H. destruct (String.eqb k' k) eqn:E; [by eexists|].
    apply elem_of_cons in H as [->|H]; [|by apply IH].
    by rewrite String.eqb_refl in E.
Qed.

Lemma lookup_None_keys l k : Obj.lookup l k = None -> k ∉ l.*1.
Proof.
  intros Hnone Hin. apply keys_lookup_Some in Hin as [v Hv]. congruence.
Qed.

Lemma lookup_overwrite_eq l k v :
  is_Some (Obj.lookup l k) -> Obj.lookup (Obj.overwrite l k v) k = Some v.
Proof.
  induction l as [|[k' v'] l IH]; simpl.
  - by intros [? ?].
  - destruct (String.eqb k' k) eqn:E; simpl; rewrite E; [done|apply IH].
Qed.

Lemma lookup_overwrite_ne l k k' v :
  k ≠ k' -> Obj.lookup (Obj.overwrite l k v) k' = Obj.lookup l k'.
Proof.
  intros Hne. induction l as [|[k0 v0] l IH]; simpl; [done|].
  destruct (String.eqb k0 k) eqn:E; simpl.
  - apply String.eqb_eq in E. subst k0.
    apply String.eqb_neq in Hne. by rewrite Hne.
  - by rewrite IH.
Qed.

Lemma keys_overwrite l k v : (Obj.overwrite l k v).*1 = l.*1.
Proof.
  induction l as [|[k' v'] l IH]; simpl; [done|].
  destruct (String.eqb k' k); csimpl; [done|]. by rewrite IH.
Qed.

Lemma keys_insertIndex l n k v :
  (Obj.insertIndex l n k v).*1 = Obj.insertIndexKey l.*1 n k.
Proof.
  induction l as [|[k' v'] l IH]; simpl; [done|].
  destruct (Obj.arrayIndex k') as [n'|]; [|done].
  destruct (n <? n')%N; csimpl; [done|]. by rewrite IH.
Qed.

Lemma lookup_insertIndex_eq l n k v :
  Obj.lookup l k = None -> Obj.lookup (Obj.insertIndex l n k v) k = Some v.
Proof.
  induction l as [|[k' v'] l IH]; simpl.
  - by rewrite String.eqb_refl.
  - destruct (String.eqb k' k) eqn:E; [done|]. intros Hnone.
    destruct (Obj.arrayIndex k') as [n'|]; simpl.
    + destruct (n <? n')%N; simpl.
      * by rewrite String.eqb_refl.
      * rewrite E. by apply IH.
    + by rewrite String.eqb_refl.
Qed.

Lemma lookup_insertIndex_ne l n k k' v :
  k ≠ k' -> Obj.lookup (Obj.insertIndex l n k v) k' = Obj.lookup l k'.
Proof.
  intros Hne. apply String.eqb_neq in Hne.
  induction l as [|[k0 v0] l IH]; simpl.
  - by rewrite Hne.
  - destruct (Obj.arrayIndex k0) as [n0|]; simpl.
    + destruct (n <? n0)%N; simpl.
      * by rewrite Hne.
      * by rewrite IH.
    + by rewrite Hne.
Qed.

Lemma lookup_app l k k' v :
  Obj.lookup (l ++ [(k, v)]) k' =
  match Obj.lookup l k' with
  | Some x => Some x
  | None => if String.eqb k k' then Some v else None
  end.
Proof.
  induction l as [|[k0 v0] l IH]; simpl; [done|].
  destruct (String.eqb k0 k'); [done|apply IH].
Qed.

Lemma lookup_define_eq l k v : Obj.lookup (Obj.define l k v) k = Some v.
Proof.
  unfold Obj.define. destruct (Obj.lookup l k) as [x|] eqn:E.
  - apply lookup_overwrite_eq. by rewrite E.
  - destruct (Obj.arrayIndex k).
    + by apply lookup_insertIndex_eq.
    + by rewrite lookup_app, E, String.eqb_refl.
Qed.

Lemma lookup_define_ne l k k' v :
  k ≠ k' -> Obj.lookup (Obj.define l k v) k' = Obj.lookup l k'.
Proof.
  intros Hne. unfold Obj.define. destruct (Obj.lookup l k) as [x|] eqn:E.
  - by apply lookup_overwrite_ne.
  - destruct (Obj.arrayIndex k).
    + by apply lookup_insertIndex_ne.
    + rewrite lookup_app. apply String.eqb_neq in Hne. rewrite Hne.
      by destruct (Obj.lookup l k').
Qed.

(** Defining a property does to the keys what [insertKey] does. *)
Lemma keys_define l k v : (Obj.define l k v).*1 = Obj.insertKey l.*1 k.
Proof.
  unfold Obj.define, Obj.insertKey.
  destruct (Obj.lookup l k) as [x|] eqn:E.
  - rewrite decide_True by by eapply lookup_Some_keys.
    apply keys_overwrite.
  - rewrite decide_False by by apply lookup_None_keys.
    destruct (Obj.arrayIndex k).
    + apply keys_insertIndex.
    + by rewrite fmap_app.
Qed.

(** A list of properties is determined by its keys and what [lookup]
    gives at them. *)
Lemma own_eq_map l (f : string -> V) :
  NoDup l.*1 ->
  (forall k, k ∈ l.*1 -> Obj.lookup l k = Some (f k)) ->
  l = (fun k => (k, f k)) <$> l.*1.
Proof.
  induction l as [|[k v] l IH]; simpl; [done|].
  intros Hnd Hget. apply NoDup_cons in Hnd as [Hk Hnd].
  csimpl. f_equal.
  - specialize (Hget k (list_elem_of_here _ _)). simpl in Hget.
    rewrite String.eqb_refl in Hget. congruence.
  - apply IH; [done|]. intros k' Hk'.
    specialize (Hget k' (list_elem_of_further _ _ _ Hk')). simpl in Hget.
    destruct (String.eqb k k') eqn:E; [|done].
    apply String.eqb_eq in E. by subst.
Qed.

End OwnProperties.

(** *** Reading and writing *)

Section Objects.
Context {V : Type}.
Implicit Types (o : Obj.t V) (k : string) (v : V).

Lemma get_set_eq o k v : Obj.get (Obj.set o k v) k = Some v.
Proof.
  unfold Obj.get, Obj.set. destruct (String.eqb k "__proto__"); simpl; [done|].
  apply lookup_define_eq.
Qed.

Lemma get_set_ne o k k' v :
  k ≠ k' -> Obj.get (Obj.set o k v) k' = Obj.get o k'.
Proof.
  intros Hne. unfold Obj.get, Obj.set.
  destruct (String.eqb_spec k "__proto__") as [->|Hk];
    destruct (String.eqb_spec k' "__proto__") as [->|Hk']; simpl; try done.
  by apply lookup_define_ne.
Qed.

(** The key [__proto__] is never an own property of what [set] makes. *)
Lemma keys_set o k v :
  Obj.keys (Obj.set o k v) =
  if String.eqb k "__proto__" then Obj.keys o
  else Obj.insertKey (Obj.keys o) k.
Proof.
  unfold Obj.keys, Obj.set. destruct (String.eqb k "__proto__"); simpl; [done|].
  apply keys_define.
Qed.

Lemma get_Some_seen o k v :
  Obj.get o k = Some v -> k = "__proto__" ∨ k ∈ Obj.keys o.
Proof.
  unfold Obj.get. destruct (String.eqb_spec k "__proto__") as [->|Hk].
  - by left.
  - intros H. right. by eapply lookup_Some_keys.
Qed.

(** Writing a property that [get] finds keeps the keys and their
    order. *)
Lemma keys_set_present o k v :
  is_Some (Obj.get o k) -> Obj.keys (Obj.set o k v) = Obj.keys o.
Proof.
  intros [x Hx]. rewrite keys_set.
  destruct (String.eqb_spec k "__proto__") as [->|Hk]; [done|].
  unfold Obj.insertKey. rewrite decide_True; [done|].
  by destruct (get_Some_seen _ _ _ Hx).
Qed.

(** The entries of an object are determined by its keys and what [get]
    gives at them, when [__proto__] is not among the keys. *)
Lemma entries_eq_map o (f : string -> V) :
  NoDup (Obj.keys o) -> "__proto__" ∉ Obj.keys o ->
  (forall k, k ∈ Obj.keys o -> Obj.get o k = Some (f k)) ->
  Obj.entries o = (fun k => (k, f k)) <$> Obj.keys o.
Proof.
  intros Hnd Hproto Hget. apply own_eq_map; [done|].
  intros k Hk. specialize (Hget k Hk). unfold Obj.get in Hget.
  destruct (String.eqb k "__proto__") eqn:E; [|done].
  apply String.eqb_eq in E. by subst.
Qed.

End Objects.

(** *** Array indices *)

Section ArrayIndex.

Lemma digit_of_bound (c : ascii) (d : N) :
  JS.digit_of c = Some d -> (d <= 9)%N.
Proof.
  unfold JS.digit_of. destruct (_ && _)%N eqn:E; [|done]. intros [= <-].
  apply andb_true_iff in E as [_ E]. apply N.leb_le in E. lia.
Qed.

Lemma digit_of_inj (c1 c2 : ascii) (d : N) :
  JS.digit_of c1 = Some d -> JS.digit_of c2 = Some d -> c1 = c2.
Proof.
  unfold JS.digit_of.
  destruct (_ && _)%N eqn:E1; [|done]. intros [= <-].
  destruct ((48 <=? N_of_ascii c2) && _)%N eqn:E2; [|done]. intros [= H].
  apply andb_true_iff in E1 as [E1 _]. apply N.leb_le in E1.
  apply andb_true_iff in E2 as [E2 _]. apply N.leb_le in E2.
  rewrite <- (ascii_N_embedding c1), <- (ascii_N_embedding c2).
  f_equal. lia.
Qed.

(** The digits read after [acc] stand to its right. *)
Lemma digitsValue_bounds (s : string) (acc n : N) :
  Obj.digitsValue s acc = Some n ->
  (acc * 10 ^ N.of_nat (String.length s) <= n
   < (acc + 1) * 10 ^ N.of_nat (String.length s))%N.
Proof.
  revert acc. induction s as [|c s IH]; intros acc; simpl String.length.
  - intros [= <-]. change (10 ^ N.of_nat 0)%N with 1%N. lia.
  - simpl. destruct (JS.digit_of c) as [d|] eqn:Ed; [|done]. intros H.
    apply IH in H. apply digit_of_bound in Ed.
    rewrite Nat2N.inj_succ, N.pow_succ_r'.
    set (P := (10 ^ N.of_nat (String.length s))%N) in *. nia.
Qed.

Lemma digitsValue_inj (s1 s2 : string) (acc n : N) :
  String.length s1 = String.length s2 ->
  Obj.digitsValue s1 acc = Some n -> Obj.digitsValue s2 acc = Some n ->
  s1 = s2.
Proof.
  revert s2 acc. induction s1 as [|c1 s1 IH]; intros [|c2 s2] acc;
    simpl; try done.
  intros [= Hlen].
  destruct (JS.digit_of c1) as [d1|] eqn:E1; [|done].
  destruct (JS.digit_of c2) as [d2|] eqn:E2; [|done].
  intros H1 H2.
  pose proof (digitsValue_bounds _ _ _ H1) as B1.
  pose proof (digitsValue_bounds _ _ _ H2) as B2.
  rewrite Hlen in B1.
  set (P := (10 ^ N.of_nat (String.length s2))%N) in *.
  assert (d1 = d2) as -> by nia.
  f_equal; [by eapply digit_of_inj|]. by eapply IH.
Qed.

(** A key that starts with a digit other than 0 and reads as [n] has as
    many digits as [n]. *)
Lemma digitsValue_length (c : ascii) (s : string) (n : N) :
  Ascii.eqb c "0" = false ->
  Obj.digitsValue (String c s) 0 = Some n ->
  (10 ^ N.of_nat (String.length s) <= n
   < 10 ^ N.of_nat (S (String.length s)))%N.
Proof.
  intros Hc. simpl. destruct (JS.digit_of c) as [d|] eqn:Ed; [|done].
  intros H. apply digitsValue_bounds in H.
  assert (d ≠ 0%N) as Hd.
  { intros ->. apply Ascii.eqb_neq in Hc. apply Hc.
    by apply (digit_of_inj _ _ 0%N). }
  apply digit_of_bound in Ed.
  rewrite Nat2N.inj_succ, N.pow_succ_r'.
  set (P := (10 ^ N.of_nat (String.length s))%N) in *. nia.
Qed.

(** Two keys with the same array index are the same key. *)
Lemma arrayIndex_inj (k1 k2 : string) (n : N) :
  Obj.arrayIndex k1 = Some n -> Obj.arrayIndex k2 = Some n -> k1 = k2.
Proof.
  unfold Obj.arrayIndex.
  destruct k1 as [|c1 s1]; [done|]. destruct k2 as [|c2 s2]; [done|].
  destruct (Ascii.eqb c1 "0") eqn:E1; destruct (Ascii.eqb c2 "0") eqn:E2.
  - apply Ascii.eqb_eq in E1, E2. subst.
    destruct s1; [|done]. by destruct s2.
  - destruct s1; [|done]. intros [= <-].
    destruct (Obj.digitsValue (String c2 s2) 0) as [m|] eqn:H2; [|done].
    destruct (m <=? 4294967294)%N; [|done]. intros [= ->].
    apply digitsValue_length in H2; [|done].
    pose proof (N.pow_nonzero 10 (N.of_nat (String.length s2))). lia.
  - destruct (Obj.digitsValue (String c1 s1) 0) as [m|] eqn:H1; [|done].
    destruct (m <=? 4294967294)%N; [|done]. intros [= ->].
    destruct s2; [|done]. intros [= <-].
    apply digitsValue_length in H1; [|done].
    pose proof (N.pow_nonzero 10 (N.of_nat (String.length s1))). lia.
  - destruct (Obj.digitsValue (String c1 s1) 0) as [m1|] eqn:H1; [|done].
    destruct (m1 <=? 4294967294)%N; [|done]. intros [= ->].
    destruct (Obj.digitsValue (String c2 s2) 0) as [m2|] eqn:H2; [|done].
    destruct (m2 <=? 4294967294)%N; [|done]. intros [= ->].
    apply (digitsValue_inj _ _ 0%N n); [|done|done].
    pose proof (digitsValue_length _ _ _ E1 H1) as B1.
    pose proof (digitsValue_length _ _ _ E2 H2) as B2.
    simpl. f_equal.
    destruct (Nat.lt_trichotomy (String.length s1) (String.length s2))
      as [Hlt|[Heq|Hlt]]; [|done|]; exfalso.
    + assert (10 ^ N.of_nat (S (String.length s1))
              <= 10 ^ N.of_nat (String.length s2))%N
        by (apply N.pow_le_mono_r; lia).
      lia.
    + assert (10 ^ N.of_nat (S (String.length s2))
              <= 10 ^ N.of_nat (String.length s1))%N
        by (apply N.pow_le_mono_r; lia).
      lia.
Qed.

End ArrayIndex.

(** *** The order of the keys *)

Section KeyOrder.
Implicit Types (ks : list string) (k : string).

Lemma isArrayIndex_Some k n : Obj.arrayIndex k = Some n -> Obj.isArrayIndex k = true.
Proof. unfold Obj.isArrayIndex. by intros ->. Qed.

Lemma isArrayIndex_None k : Obj.isArrayIndex k = false -> Obj.arrayIndex k = None.
Proof. unfold Obj.isArrayIndex. by destruct (Obj.arrayIndex k). Qed.

Lemma insertIndexKey_Permutation ks n k : Obj.insertIndexKey ks n k ≡ₚ k :: ks.
Proof.
  induction ks as [|k' ks IH]; simpl; [done|].
  destruct (Obj.arrayIndex k') as [n'|]; [|done].
  destruct (n <? n')%N; [done|]. rewrite IH. apply Permutation_swap.
Qed.

Lemma insertKey_elem ks k k' : k' ∈ Obj.insertKey ks k <-> k' = k ∨ k' ∈ ks.
Proof.
  unfold Obj.insertKey. destruct (decide (k ∈ ks)) as [Hin|Hin].
  - split; [by right|]. by intros [->|?].
  - destruct (Obj.arrayIndex k).
    + by rewrite insertIndexKey_Permutation, elem_of_cons.
    + rewrite elem_of_app, list_elem_of_singleton. tauto.
Qed.

Lemma insertKey_NoDup ks k : NoDup ks -> NoDup (Obj.insertKey ks k).
Proof.
  intros Hnd. unfold Obj.insertKey. destruct (decide (k ∈ ks)) as [Hin|Hin]; [done|].
  destruct (Obj.arrayIndex k).
  - rewrite insertIndexKey_Permutation. by constructor.
  - apply NoDup_app. split; [done|]. split; [|apply NoDup_singleton].
    intros x Hx Hx'. apply list_elem_of_singleton in Hx'. by subst.
Qed.

Lemma foldl_insertKey_elem (l : list string) ks k :
  k ∈ foldl Obj.insertKey ks l <-> k ∈ ks ∨ k ∈ l.
Proof.
  revert ks. induction l as [|x l IH]; intros ks; csimpl.
  - rewrite elem_of_nil. tauto.
  - rewrite IH, insertKey_elem, elem_of_cons. tauto.
Qed.

Lemma foldl_insertKey_NoDup (l : list string) ks :
  NoDup ks -> NoDup (foldl Obj.insertKey ks l).
Proof.
  revert ks. induction l as [|x l IH]; intros ks Hnd; csimpl; [done|].
  by apply IH, insertKey_NoDup.
Qed.

Lemma keyOrder_elem (l : list string) k : k ∈ Obj.keyOrder l <-> k ∈ l.
Proof.
  unfold Obj.keyOrder. rewrite foldl_insertKey_elem, elem_of_nil. tauto.
Qed.

Lemma keyOrder_NoDup (l : list string) : NoDup (Obj.keyOrder l).
Proof. apply foldl_insertKey_NoDup. constructor. Qed.

(** A new array index goes to its place among the array indices, which
    come first. *)
Lemma insertIndexKey_split (I S : list string) n k :
  Obj.arrayIndex k = Some n -> k ∉ I ->
  Forall (fun x => Obj.isArrayIndex x = true) I ->
  Forall (fun x => isName x = true) S ->
  StronglySorted Obj.indexLt I ->
  exists I',
    Obj.insertIndexKey (I ++ S) n k = (I' ++ S)%list
    ∧ I' ≡ₚ k :: I
    ∧ StronglySorted Obj.indexLt I'.
Proof.
  intros Hk Hnew HI HS Hsorted. induction I as [|k' I IH]; simpl.
  - exists [k]. split; [|split; [done|repeat constructor]].
    destruct S as [|s S]; [done|]. simpl.
    apply Forall_cons in HS as [Hs _]. unfold isName in Hs.
    apply negb_true_iff, isArrayIndex_None in Hs. by rewrite Hs.
  - apply Forall_cons in HI as [Hk' HI].
    apply not_elem_of_cons in Hnew as [Hne Hnew].
    apply StronglySorted_inv in Hsorted as [Hsorted Hlt'].
    unfold Obj.isArrayIndex in Hk'.
    destruct (Obj.arrayIndex k') as [n'|] eqn:En'; [|done].
    assert (n ≠ n') as Hnn.
    { intros ->. apply Hne. by apply (arrayIndex_inj _ _ n'). }
    destruct (n <? n')%N eqn:Hlt.
    + exists (k :: k' :: I). split; [done|]. split; [done|].
      apply N.ltb_lt in Hlt.
      constructor; [by constructor|]. constructor.
      * unfold Obj.indexLt. rewrite Hk, En'. lia.
      * rewrite Forall_forall in Hlt' |- *. intros x Hx.
        specialize (Hlt' x Hx). unfold Obj.indexLt in *.
        rewrite En' in Hlt'. rewrite Hk.
        destruct (Obj.arrayIndex x); [lia|done].
    + destruct (IH Hnew HI Hsorted) as (I' & Heq & Hperm & Hs').
      exists (k' :: I'). split; [by rewrite Heq|]. split.
      * rewrite Hperm. apply Permutation_swap.
      * apply N.ltb_ge in Hlt. constructor; [done|].
        rewrite Forall_forall. intros x Hx.
        rewrite Hperm in Hx. apply elem_of_cons in Hx as [->|Hx].
        -- unfold Obj.indexLt. rewrite En', Hk. lia.
        -- rewrite Forall_forall in Hlt'. by apply Hlt'.
Qed.

(** The keys stay in two parts: the array indices in ascending order,
    then the names in the order they came. *)
Lemma insertKey_split (I S : list string) k :
  Forall (fun x => Obj.isArrayIndex x = true) I ->
  Forall (fun x => isName x = true) S ->
  StronglySorted Obj.indexLt I ->
  exists I',
    Obj.insertKey (I ++ S) k
      = (I' ++ (if isName k then addKey S k else S))%list
    ∧ Forall (fun x => Obj.isArrayIndex x = true) I'
    ∧ StronglySorted Obj.indexLt I'.
Proof.
  intros HI HS Hsorted. unfold Obj.insertKey, isName, addKey.
  destruct (decide (k ∈ (I ++ S)%list)) as [Hin|Hin].
  - exists I. split; [|done].
    destruct (Obj.isArrayIndex k) eqn:Ek; simpl; [done|].
    rewrite decide_True; [done|].
    apply elem_of_app in Hin as [Hin|Hin]; [|done].
    rewrite Forall_forall in HI. specialize (HI k Hin). congruence.
  - apply not_elem_of_app in Hin as [HinI HinS].
    destruct (Obj.arrayIndex k) as [n|] eqn:Ek.
    + rewrite (isArrayIndex_Some _ _ Ek). simpl.
      destruct (insertIndexKey_split I S n k Ek HinI HI HS Hsorted)
        as (I' & Heq & Hperm & Hs').
      exists I'. split; [done|]. split; [|done].
      rewrite Forall_forall. intros x Hx. rewrite Hperm in Hx.
      apply elem_of_cons in Hx as [->|Hx].
      * by eapply isArrayIndex_Some.
      * rewrite Forall_forall in HI. by apply HI.
    + unfold Obj.isArrayIndex. rewrite Ek. simpl.
      rewrite decide_False by done.
      exists I. by rewrite app_assoc.
Qed.

Lemma addKey_names (S : list string) k :
  isName k = true ->
  Forall (fun x => isName x = true) S ->
  Forall (fun x => isName x = true) (addKey S k).
Proof.
  intros Hk HS. unfold addKey. destruct (decide (k ∈ S)); [done|].
  apply Forall_app. split; [done|]. by constructor.
Qed.

Lemma foldl_insertKey_split (l I S : list string) :
  Forall (fun x => Obj.isArrayIndex x = true) I ->
  Forall (fun x => isName x = true) S ->
  StronglySorted Obj.indexLt I ->
  exists I' S',
    foldl Obj.insertKey (I ++ S)%list l = (I' ++ S')%list
    ∧ S' = foldl addKey S (List.filter isName l)
    ∧ Forall (fun x => Obj.isArrayIndex x = true) I'
    ∧ Forall (fun x => isName x = true) S'
    ∧ StronglySorted Obj.indexLt I'.
Proof.
  revert I S. induction l as [|k l IH]; intros I S HI HS Hsorted; csimpl.
  - by exists I, S.
  - destruct (insertKey_split I S k HI HS Hsorted) as (I1 & -> & HI1 & Hs1).
    destruct (isName k) eqn:Ek; simpl.
    + apply IH; [done| by apply addKey_names |done].
    + by apply IH.
Qed.

Lemma filter_app_split (p : string -> bool) (I S : list string) :
  Forall (fun x => p x = true) I -> Forall (fun x => p x = false) S ->
  List.filter p (I ++ S) = I.
Proof.
  intros HI HS. rewrite List.filter_app.
  assert (List.filter p I = I) as ->.
  { induction HI as [|x I Hx _ IH]; simpl; [done|]. by rewrite Hx, IH. }
  assert (List.filter p S = []) as ->.
  { induction HS as [|x S Hx _ IH]; simpl; [done|]. by rewrite Hx, IH. }
  apply app_nil_r.
Qed.

(** The order of the keys of an object whose properties were defined in
    the order of [l]: the array indices, strictly ascending, then the
    names, each at its first place. *)
Lemma keyOrder_spec (l : list string) :
  Obj.keyOrder l =
    (List.filter Obj.isArrayIndex (Obj.keyOrder l)
     ++ firstOccurrences (List.filter isName l))%list
  ∧ StronglySorted Obj.indexLt (List.filter Obj.isArrayIndex (Obj.keyOrder l)).
Proof.
  destruct (foldl_insertKey_split l [] [] (Forall_nil_2 _) (Forall_nil_2 _)
              (SSorted_nil _))
    as (I & S & Heq & -> & HI & HS & Hsorted).
  simpl in Heq. unfold Obj.keyOrder. rewrite Heq.
  rewrite filter_app_split; [done|done|].
  eapply Forall_impl; [exact HS|]. intros x Hx. unfold isName in Hx.
  by apply negb_true_iff in Hx.
Qed.

End KeyOrder.

(** ** Grouping a list by a key *)

Section Grouping.
Context {A : Type} (f : A -> string).

Lemma group_cons_eq x l : group f (x :: l) (f x) = x :: group f l (f x).
Proof. unfold group. simpl. by rewrite String.eqb_refl. Qed.

Lemma group_cons_ne x l k : f x ≠ k -> group f (x :: l) k = group f l k.
Proof.
  intros Hne. unfold group. simpl.
  apply String.eqb_neq in Hne. by rewrite Hne.
Qed.

Lemma groups_cons_absent x l ks :
  f x ∉ ks -> concat (group f (x :: l) <$> ks) = concat (group f l <$> ks).
Proof.
  induction ks as [|k ks IH]; csimpl; [done|].
  intros H. apply not_elem_of_cons in H as [Hne H].
  rewrite group_cons_ne by done. by rewrite IH.
Qed.

Lemma groups_cons_present x l ks :
  NoDup ks -> f x ∈ ks ->
  concat (group f (x :: l) <$> ks) ≡ₚ x :: concat (group f l <$> ks).
Proof.
  induction ks as [|k ks IH]; csimpl.
  - intros _ H. by apply elem_of_nil in H.
  - intros Hnd Hin. apply NoDup_cons in Hnd as [Hk Hnd].
    destruct (decide (f x = k)) as [<-|Hne].
    + rewrite group_cons_eq, groups_cons_absent by done. done.
    + rewrite group_cons_ne by done.
      apply elem_of_cons in Hin as [?|Hin]; [done|].
      rewrite IH by done. by rewrite Permutation_middle.
Qed.

(** The groups of distinct keys that cover the list are a partition of
    the list. *)
Lemma groups_partition l ks :
  NoDup ks -> (forall x, x ∈ l -> f x ∈ ks) ->
  concat (group f l <$> ks) ≡ₚ l.
Proof.
  intros Hnd. induction l as [|x l IH]; intros Hcov.
  - clear. induction ks as [|k ks IH]; csimpl; done.
  - rewrite groups_cons_present; [|done|apply Hcov, list_elem_of_here].
    constructor. apply IH. intros y Hy. by apply Hcov, list_elem_of_further.
Qed.

End Grouping.

(** ** More on groups *)

Section MoreGroups.
Context {A : Type} (f : A -> string).

Lemma elem_of_group (l : list A) (x : A) : x ∈ l -> x ∈ group f l (f x).
Proof.
  intros Hin. unfold group. apply list_elem_of_In, List.filter_In.
  split; [by apply list_elem_of_In | apply String.eqb_refl].
Qed.

Lemma group_app (l1 l2 : list A) (k : string) :
  group f (l1 ++ l2) k = (group f l1 k ++ group f l2 k)%list.
Proof. unfold group. apply List.filter_app. Qed.

Lemma group_elem (l : list A) (k : string) (x : A) :
  x ∈ group f l k <-> x ∈ l ∧ f x = k.
Proof.
  unfold group. rewrite list_elem_of_In, List.filter_In, <- list_elem_of_In.
  by rewrite String.eqb_eq.
Qed.

Lemma group_nonempty (l : list A) (k : string) :
  group f l k ≠ [] <-> k ∈ f <$> l.
Proof.
  rewrite list_elem_of_fmap. split.
  - destruct (group f l k) as [|x g] eqn:E; [done|]. intros _.
    assert (x ∈ group f l k) as Hx by (rewrite E; apply list_elem_of_here).
    apply group_elem in Hx as [Hx <-]. by exists x.
  - intros (x & -> & Hx) E.
    apply elem_of_group in Hx. rewrite E in Hx. by apply elem_of_nil in Hx.
Qed.

Lemma group_Permutation (l l' : list A) (k : string) :
  l ≡ₚ l' -> group f l k ≡ₚ group f l' k.
Proof.
  unfold group. induction 1 as [|x l l' _ IH|x y l|l l' l'' _ IH1 _ IH2];
    simpl; [done| | |by etrans].
  - destruct (String.eqb (f x) k); by rewrite IH.
  - destruct (String.eqb (f x) k), (String.eqb (f y) k); try done.
    apply Permutation_swap.
Qed.

(** The groups of distinct keys are a partition of the members whose key
    is one of them. *)
Lemma groups_select (l : list A) (ks : list string) :
  NoDup ks ->
  concat (group f l <$> ks)
  ≡ₚ List.filter (fun x => bool_decide (f x ∈ ks)) l.
Proof.
  intros Hnd. induction l as [|x l IH]; simpl.
  - clear. induction ks as [|k ks IH]; csimpl; done.
  - destruct (decide (f x ∈ ks)) as [Hin|Hin].
    + rewrite bool_decide_eq_true_2 by done.
      rewrite groups_cons_present by done. by constructor.
    + rewrite bool_decide_eq_false_2 by done.
      by rewrite groups_cons_absent.
Qed.

(** Leaving out the keys whose group is empty loses no member. *)
Lemma groups_nonempty_only (l : list A) (ks : list string) :
  concat (group f l <$>
            List.filter (fun k => (0 <? length (group f l k))%nat) ks)
  = concat (group f l <$> ks).
Proof.
  induction ks as [|k ks IH]; csimpl; [done|].
  destruct (group f l k) as [|x g] eqn:E; csimpl.
  - done.
  - by rewrite E, IH.
Qed.

Lemma groups_nonempty_count (l : list A) (ks : list string) :
  (length (List.filter (fun k => (0 <? length (group f l k))%nat) ks)
   <= length (concat (group f l <$> ks)))%nat.
Proof.
  induction ks as [|k ks IH]; csimpl; [done|].
  rewrite length_app.
  destruct (group f l k) as [|x g]; csimpl; lia.
Qed.

End MoreGroups.

Lemma filter_Permutation_bool {A} (p : A -> bool) (l l' : list A) :
  l ≡ₚ l' -> List.filter p l ≡ₚ List.filter p l'.
Proof.
  induction 1 as [|x l l' _ IH|x y l|l l' l'' _ IH1 _ IH2];
    simpl; [done| | |by etrans].
  - destruct (p x); by rewrite IH.
  - destruct (p x), (p y); try done. apply Permutation_swap.
Qed.

Lemma filter_fmap_bool {A B} (p : B -> bool) (h : A -> B) (l : list A) :
  List.filter p (h <$> l) = h <$> List.filter (fun x => p (h x)) l.
Proof.
  induction l as [|x l IH]; csimpl; [done|].
  destruct (p (h x)); csimpl; by rewrite IH.
Qed.

Lemma filter_length_le {A} (p : A -> bool) (l : list A) :
  (length (List.filter p l) <= length l)%nat.
Proof.
  induction l as [|x l IH]; simpl; [done|]. destruct (p x); simpl; lia.
Qed.

Lemma filter_all {A} (p : A -> bool) (l : list A) :
  (forall x, x ∈ l -> p x = true) -> List.filter p l = l.
Proof.
  induction l as [|x l IH]; simpl; [done|]. intros H.
  rewrite (H x (list_elem_of_here _ _)). f_equal.
  apply IH. intros y Hy. by apply H, list_elem_of_further.
Qed.

Lemma filter_nil_iff {A} (p : A -> bool) (l : list A) :
  List.filter p l = [] <-> forall x, x ∈ l -> p x = false.
Proof.
  induction l as [|x l IH]; simpl.
  - split; [|done]. intros _ x Hx. by apply elem_of_nil in Hx.
  - destruct (p x) eqn:E.
    + split; [done|]. intros H. specialize (H x (list_elem_of_here _ _)).
      congruence.
    + rewrite IH. split.
      * intros H y [->|Hy]%elem_of_cons; [done|by apply H].
      * intros H y Hy. by apply H, list_elem_of_further.
Qed.

Lemma NoDup_filter_bool {A} (p : A -> bool) (l : list A) :
  NoDup l -> NoDup (List.filter p l).
Proof.
  induction 1 as [|x l Hx Hnd IH]; simpl; [constructor|].
  destruct (p x); [|done]. constructor; [|done].
  intros Hin. apply Hx.
  by apply list_elem_of_In, List.filter_In in Hin as [?%list_elem_of_In _].
Qed.

(** ** The payment summary *)

Lemma get_empty {V} (k : string) : Obj.get (@Obj.empty V) k = None.
Proof. unfold Obj.get, Obj.empty. simpl. by destruct (String.eqb k "__proto__"). Qed.

Section PaymentSummary.
Variable paymentMethods : list PaymentMethod.

Let name := methodName paymentMethods.

(** What the seeding loop leaves at a key. *)
Lemma seed_fold_get (l : list PaymentMethod) (o : PaymentSummary) k :
  Obj.get (foldl (fun ps m => Obj.set ps (pm_name m) zeroEntry) o l) k =
  if decide (k ∈ pm_name <$> l) then Some zeroEntry else Obj.get o k.
Proof.
  revert o. induction l as [|m l IH]; intros o; [|csimpl].
  - rewrite decide_False; [done|]. apply not_elem_of_nil.
  - rewrite IH. destruct (decide (k ∈ pm_name <$> l)) as [Hin|Hin].
    + rewrite decide_True; [done|]. by apply list_elem_of_further.
    + destruct (decide (pm_name m = k)) as [<-|Hne].
      * rewrite decide_True by apply list_elem_of_here. apply get_set_eq.
      * rewrite decide_False; [by apply get_set_ne|].
        intros [?|?]%elem_of_cons; congruence.
Qed.

(** Every seeded name is found, with a zeroed entry, and nothing else
    is. *)
Lemma seed_get k :
  Obj.get (seedPaymentSummary paymentMethods) k =
  if decide (k ∈ seededNames paymentMethods) then Some zeroEntry else None.
Proof.
  unfold seedPaymentSummary, seededNames.
  destruct (decide ("Pendiente" = k)) as [<-|Hne].
  - rewrite get_set_eq. rewrite decide_True; [done|].
    apply elem_of_app. right. apply list_elem_of_here.
  - rewrite get_set_ne by done. rewrite seed_fold_get.
    destruct (decide (k ∈ pm_name <$> paymentMethods)) as [Hin|Hin].
    + rewrite decide_True; [done|]. apply elem_of_app. by left.
    + rewrite decide_False; [apply get_empty|].
      intros [?|H]%elem_of_app; [done|].
      apply list_elem_of_singleton in H. congruence.
Qed.

Lemma seed_fold_keys (l : list PaymentMethod) (o : PaymentSummary) :
  Obj.keys (foldl (fun ps m => Obj.set ps (pm_name m) zeroEntry) o l) =
  foldl Obj.insertKey (Obj.keys o) (List.filter notProto (pm_name <$> l)).
Proof.
  revert o. induction l as [|m l IH]; intros o; csimpl; [done|].
  rewrite IH, keys_set. unfold notProto.
  by destruct (String.eqb (pm_name m) "__proto__").
Qed.

(** The own keys of the seeded summary: the seeded names but
    [__proto__], in the order of an object. *)
Lemma seed_keys_order :
  Obj.keys (seedPaymentSummary paymentMethods)
  = Obj.keyOrder (List.filter notProto (seededNames paymentMethods)).
Proof.
  unfold seedPaymentSummary, seededNames, Obj.keyOrder.
  rewrite keys_set.
  change (String.eqb "Pendiente" "__proto__") with false. cbv iota.
  rewrite seed_fold_keys, List.filter_app, foldl_app. done.
Qed.

Lemma seed_keys k :
  k ∈ Obj.keys (seedPaymentSummary paymentMethods)
  <-> k ∈ seededNames paymentMethods ∧ k ≠ "__proto__".
Proof.
  rewrite seed_keys_order, keyOrder_elem.
  rewrite list_elem_of_In, List.filter_In, <- list_elem_of_In.
  unfold notProto. by rewrite negb_true_iff, String.eqb_neq.
Qed.

Lemma seed_NoDup : NoDup (Obj.keys (seedPaymentSummary paymentMethods)).
Proof. rewrite seed_keys_order. apply keyOrder_NoDup. Qed.

(** The name an invoice resolves to is a seeded name. *)
Lemma methodName_seeded invoice :
  name invoice ∈ seededNames paymentMethods.
Proof.
  unfold seededNames. apply elem_of_app. unfold name, methodName.
  destruct (List.find _ paymentMethods) as [m|] eqn:E;
    [|right; apply list_elem_of_here].
  destruct (JS.truthy_str (pm_name m)); [|right; apply list_elem_of_here].
  left. apply List.find_some in E as [Hin _].
  apply list_elem_of_fmap. exists m. split; [done|].
  by apply list_elem_of_In.
Qed.

Lemma method_seeded m :
  m ∈ paymentMethods -> pm_name m ∈ seededNames paymentMethods.
Proof.
  intros Hin. apply elem_of_app. left. apply list_elem_of_fmap. by exists m.
Qed.

(** One step of the accumulation, read at a key. *)
Lemma addPayment_get ps invoice k :
  Obj.get (addPayment paymentMethods ps invoice) k =
  if decide (name invoice = k)
  then (fun e => {| quantity := S (quantity e);
                    pe_total := JS.add (pe_total e)
                                  (JS.parseFloat (total invoice)) |})
         <$> Obj.get ps k
  else Obj.get ps k.
Proof.
  unfold addPayment. fold name.
  destruct (decide (name invoice = k)) as [<-|Hne].
  - destruct (Obj.get ps (name invoice)) as [e|] eqn:E; simpl.
    + apply get_set_eq.
    + done.
  - destruct (Obj.get ps (name invoice)); [by apply get_set_ne|done].
Qed.

Lemma addPayment_keys ps invoice :
  Obj.keys (addPayment paymentMethods ps invoice) = Obj.keys ps.
Proof.
  unfold addPayment.
  destruct (Obj.get ps _) as [e|] eqn:E; [|done].
  apply keys_set_present. by rewrite E.
Qed.

Lemma foldl_addPayment_keys l ps :
  Obj.keys (foldl (addPayment paymentMethods) ps l) = Obj.keys ps.
Proof.
  revert ps. induction l as [|i l IH]; intros ps; csimpl; [done|].
  by rewrite IH, addPayment_keys.
Qed.

(** The loop invariant of the accumulation, key by key. *)
Lemma foldl_addPayment_get l ps k :
  Obj.get (foldl (addPayment paymentMethods) ps l) k =
  (fun e => {| quantity := quantity e + length (group name l k);
               pe_total :=
                 foldl (fun s i => JS.add s (JS.parseFloat (total i)))
                       (pe_total e) (group name l k) |})
    <$> Obj.get ps k.
Proof.
  revert ps. induction l as [|i l IH]; intros ps; csimpl.
  - destruct (Obj.get ps k) as [[q t]|]; simpl; [|done].
    by rewrite Nat.add_0_r.
  - rewrite IH, addPayment_get.
    destruct (decide (name i = k)) as [<-|Hne].
    + rewrite group_cons_eq.
      destruct (Obj.get ps (name i)); simpl; [|done].
      by rewrite Nat.add_succ_r.
    + by rewrite group_cons_ne.
Qed.

(** What the payment summary holds at a key after the loop. *)
Lemma paymentSummary_get l k :
  Obj.get (foldl (addPayment paymentMethods)
                 (seedPaymentSummary paymentMethods) l) k =
  if decide (k ∈ seededNames paymentMethods)
  then Some (bucket paymentMethods l k) else None.
Proof.
  rewrite foldl_addPayment_get, seed_get. by destruct (decide _).
Qed.

(** The entries of the payment summary after the loop: the own keys of
    the seeded summary, each with the count and the sum of its group. *)
Lemma paymentSummary_entries l :
  Obj.entries (foldl (addPayment paymentMethods)
                     (seedPaymentSummary paymentMethods) l) =
  (fun k => (k, bucket paymentMethods l k))
    <$> Obj.keys (seedPaymentSummary paymentMethods).
Proof.
  rewrite <- (foldl_addPayment_keys l (seedPaymentSummary paymentMethods)).
  apply entries_eq_map.
  - rewrite foldl_addPayment_keys. apply seed_NoDup.
  - rewrite foldl_addPayment_keys. intros H. apply seed_keys in H. by destruct H.
  - intros k Hk. rewrite foldl_addPayment_keys in Hk.
    apply seed_keys in Hk as [Hk _].
    rewrite paymentSummary_get. by rewrite decide_True.
Qed.

Lemma rowsQuantity_buckets l ks :
  rowsQuantity ((fun k => (k, bucket paymentMethods l k)) <$> ks) =
  length (concat (group name l <$> ks)).
Proof.
  unfold rowsQuantity.
  assert (forall n,
    foldl (fun n e => (n + quantity e)%nat) n
          (((fun k => (k, bucket paymentMethods l k)) <$> ks).*2) =
    (n + length (concat (group name l <$> ks)))%nat) as H; [|apply H].
  induction ks as [|k ks IH]; intros n; csimpl; [lia|].
  rewrite IH, length_app. unfold name. lia.
Qed.

(** The groups of the own keys are a partition of the invoices that
    resolve to another name than [__proto__]. *)
Lemma paymentSummary_groups l :
  concat (group name l <$> Obj.keys (seedPaymentSummary paymentMethods))
  ≡ₚ paymentCounted paymentMethods l.
Proof.
  rewrite groups_select by apply seed_NoDup. unfold paymentCounted.
  erewrite List.filter_ext; [done|]. intros inv. simpl. fold name.
  unfold notProto.
  destruct (String.eqb_spec (name inv) "__proto__") as [E|E]; simpl.
  - apply bool_decide_eq_false_2. intros H. apply seed_keys in H. by destruct H.
  - apply bool_decide_eq_true_2. apply seed_keys. split; [|done].
    apply methodName_seeded.
Qed.

(** With no payment method of the name [__proto__], every invoice
    resolves to an own key. *)
Lemma methodName_not_proto invoice :
  "__proto__" ∉ pm_name <$> paymentMethods -> name invoice ≠ "__proto__".
Proof.
  intros Hno E. pose proof (methodName_seeded invoice) as Hin.
  rewrite E in Hin. apply elem_of_app in Hin as [Hin|Hin]; [done|].
  by apply list_elem_of_singleton in Hin.
Qed.

Lemma paymentCounted_all l :
  "__proto__" ∉ pm_name <$> paymentMethods ->
  paymentCounted paymentMethods l = l.
Proof.
  intros Hno. apply filter_all. intros inv _. unfold notProto.
  apply negb_true_iff, String.eqb_neq. by apply methodName_not_proto.
Qed.

End PaymentSummary.

(** ** Counting *)

Section Counts.

Lemma delivered_not_pending invoice :
  isDelivered invoice = true -> isPending invoice = false.
Proof.
  unfold isDelivered, isPending. intros H.
  apply andb_true_iff in H as [_ ->]. done.
Qed.

Lemma length_three_way (l : list Invoice) :
  length l =
    (length (List.filter isDelivered l) + length (List.filter isPending l)
     + length (List.filter isOther l))%nat.
Proof.
  induction l as [|i l IH]; simpl; [done|].
  unfold isOther at 1.
  destruct (isDelivered i) eqn:Ed.
  - rewrite (delivered_not_pending i Ed). simpl. lia.
  - destruct (isPending i); simpl; lia.
Qed.

Lemma isOther_spec invoice :
  isOther invoice = true <->
  (paid invoice = true ∧ status invoice ≠ "delivered")
  ∨ (paid invoice = false ∧ status invoice = "cancelled").
Proof.
  unfold isOther, isDelivered, isPending.
  destruct (paid invoice);
    destruct (String.eqb_spec (status invoice) "delivered") as [Hd|Hd];
    destruct (String.eqb_spec (status invoice) "cancelled") as [Hc|Hc];
    simpl; split; intros H; try done; try (by left); try (by right);
    destruct H as [[? ?]|[? ?]]; congruence.
Qed.

End Counts.

(** ** The employee statistics *)

Section EmployeeStats.
Variable employees : list Employee.

Let ename := employeeName employees.

(** One more sale for an entry, which starts from zero when absent. *)
Let step (acc : option EmployeeEntry) (i : Invoice) : option EmployeeEntry :=
  let e := default zeroEmployeeEntry acc in
  Some {| sales := S (sales e);
          ee_total := JS.add (ee_total e) (JS.parseFloat (total i)) |}.

(** The states of the loop: the prototype is [Object.prototype], and no
    own key is one of its names. *)
Let clean (es : EmployeeStats) : Prop :=
  Obj.proto es = None
  ∧ forall k, k ∈ Obj.keys es -> Obj.inherited k = false.

Lemma clean_empty : clean Obj.empty.
Proof. split; [done|]. intros k Hk. by apply elem_of_nil in Hk. Qed.

Lemma inherited_not_proto k : Obj.inherited k = false -> k ≠ "__proto__".
Proof. by intros H ->. Qed.

Lemma inherited_spec k : Obj.inherited k = true <-> k ∈ Obj.prototypeNames.
Proof.
  unfold Obj.inherited. rewrite List.existsb_exists. split.
  - intros (x & Hin & Heq). apply String.eqb_eq in Heq. subst.
    by apply list_elem_of_In.
  - intros Hin. exists k. split; [by apply list_elem_of_In|].
    apply String.eqb_refl.
Qed.

Lemma clean_get_inherited es k :
  clean es -> Obj.inherited k = true -> Obj.get es k = None.
Proof.
  intros [Hp Hk] Hi. unfold Obj.get.
  destruct (String.eqb k "__proto__"); [done|].
  destruct (Obj.lookup (Obj.own es) k) as [e|] eqn:El; [|done].
  apply lookup_Some_keys in El. apply Hk in El. congruence.
Qed.

(** An invoice of a name of [Object.prototype] leaves the statistics as
    they are. *)
Lemma addEmployee_inherited es i :
  clean es -> Obj.inherited (ename i) = true ->
  addEmployee employees es i = es.
Proof.
  intros Hc Hi. unfold addEmployee. fold ename. unfold Obj.truthy.
  rewrite (clean_get_inherited _ _ Hc Hi), Hi.
  by rewrite (clean_get_inherited _ _ Hc Hi).
Qed.

Lemma addEmployee_get es i k :
  Obj.inherited (ename i) = false ->
  Obj.get (addEmployee employees es i) k =
  if decide (ename i = k) then step (Obj.get es k) i else Obj.get es k.
Proof.
  intros Hi. unfold addEmployee. fold ename. unfold Obj.truthy. rewrite Hi.
  destruct (Obj.get es (ename i)) as [e|] eqn:E.
  - rewrite E. destruct (decide (ename i = k)) as [<-|Hne].
    + by rewrite get_set_eq, E.
    + by rewrite get_set_ne.
  - rewrite get_set_eq. destruct (decide (ename i = k)) as [<-|Hne].
    + by rewrite get_set_eq, E.
    + by rewrite !get_set_ne.
Qed.

Lemma addEmployee_keys es i :
  Obj.inherited (ename i) = false ->
  Obj.keys (addEmployee employees es i) = Obj.insertKey (Obj.keys es) (ename i).
Proof.
  intros Hi. pose proof (inherited_not_proto _ Hi) as Hp.
  apply String.eqb_neq in Hp.
  unfold addEmployee. fold ename. unfold Obj.truthy. rewrite Hi.
  destruct (Obj.get es (ename i)) as [e|] eqn:E.
  - rewrite E. rewrite keys_set_present by by rewrite E.
    unfold Obj.insertKey. rewrite decide_True; [done|].
    apply get_Some_seen in E as [E|E]; [|done].
    apply String.eqb_neq in Hp. done.
  - rewrite get_set_eq. rewrite keys_set_present by by rewrite get_set_eq.
    by rewrite keys_set, Hp.
Qed.

Lemma addEmployee_proto es i :
  Obj.inherited (ename i) = false ->
  Obj.proto (addEmployee employees es i) = Obj.proto es.
Proof.
  intros Hi. pose proof (inherited_not_proto _ Hi) as Hp.
  apply String.eqb_neq in Hp.
  unfold addEmployee. fold ename. unfold Obj.truthy. rewrite Hi.
  destruct (Obj.get es (ename i)) as [e|] eqn:E.
  - rewrite E. unfold Obj.set. by rewrite Hp.
  - rewrite get_set_eq. unfold Obj.set. by rewrite Hp.
Qed.

Lemma addEmployee_clean es i : clean es -> clean (addEmployee employees es i).
Proof.
  intros Hc. destruct (Obj.inherited (ename i)) eqn:Hi.
  - by rewrite addEmployee_inherited.
  - destruct Hc as [Hp Hk]. split.
    + by rewrite addEmployee_proto.
    + intros k. rewrite addEmployee_keys by done.
      rewrite insertKey_elem. intros [->|Hin]; [done|by apply Hk].
Qed.

Lemma foldl_addEmployee_clean l es :
  clean es -> clean (foldl (addEmployee employees) es l).
Proof.
  revert es. induction l as [|i l IH]; intros es Hc; [done|].
  by apply IH, addEmployee_clean.
Qed.

(** The prototype of the employee statistics is never replaced. *)
Lemma employeeStats_proto l :
  Obj.proto (foldl (addEmployee employees) Obj.empty l) = None.
Proof. by destruct (foldl_addEmployee_clean l _ clean_empty). Qed.

(** The loop invariant of the accumulation, key by key. *)
Lemma foldl_addEmployee_get l es k :
  clean es ->
  Obj.get (foldl (addEmployee employees) es l) k =
  if Obj.inherited k then None
  else foldl step (Obj.get es k) (group ename l k).
Proof.
  revert es. induction l as [|i l IH]; intros es Hc; csimpl.
  - destruct (Obj.inherited k) eqn:Hk; [by apply clean_get_inherited|done].
  - rewrite IH by by apply addEmployee_clean.
    destruct (Obj.inherited k) eqn:Hk; [done|].
    destruct (Obj.inherited (ename i)) eqn:Hi.
    + rewrite addEmployee_inherited by done.
      rewrite group_cons_ne; [done|]. congruence.
    + rewrite addEmployee_get by done.
      destruct (decide (ename i = k)) as [<-|Hne].
      * by rewrite group_cons_eq.
      * by rewrite group_cons_ne.
Qed.

Lemma foldl_addEmployee_keys l es :
  clean es ->
  Obj.keys (foldl (addEmployee employees) es l) =
  foldl Obj.insertKey (Obj.keys es)
        (ename <$> employeeCounted employees l).
Proof.
  revert es. induction l as [|i l IH]; intros es Hc; [done|].
  unfold employeeCounted. simpl. fold ename.
  rewrite IH by by apply addEmployee_clean.
  destruct (Obj.inherited (ename i)) eqn:Hi; simpl.
  - by rewrite addEmployee_inherited.
  - by rewrite addEmployee_keys.
Qed.

Lemma foldl_step_Some g e :
  foldl step (Some e) g =
  Some {| sales := sales e + length g;
          ee_total :=
            foldl (fun s i => JS.add s (JS.parseFloat (total i)))
                  (ee_total e) g |}.
Proof.
  revert e. induction g as [|i g IH]; intros e; csimpl.
  - destruct e. simpl. by rewrite Nat.add_0_r.
  - unfold step at 2. simpl. rewrite IH. simpl. by rewrite Nat.add_succ_r.
Qed.

Lemma foldl_step_None g :
  foldl step None g =
  match g with
  | [] => None
  | _ :: _ =>
      Some {| sales := length g; ee_total := sumField total g |}
  end.
Proof.
  destruct g as [|i g]; [done|]. csimpl. unfold step at 2. simpl.
  by rewrite foldl_step_Some.
Qed.

(** What the employee statistics hold at a name after the loop: nothing
    for a name of [Object.prototype] and for a name without invoices,
    otherwise the count and the sum of the group of the name. *)
Lemma employeeStats_get l k :
  Obj.get (foldl (addEmployee employees) Obj.empty l) k =
  if Obj.inherited k then None
  else
    match group ename l k with
    | [] => None
    | _ :: _ => Some (employeeBucket employees l k)
    end.
Proof.
  rewrite foldl_addEmployee_get by apply clean_empty.
  destruct (Obj.inherited k); [done|].
  rewrite get_empty, foldl_step_None. unfold employeeBucket. fold ename.
  by destruct (group ename l k).
Qed.

(** An entry of the employee statistics holds the number of the
    delivered invoices attributed to its name and the sum of their
    totals. *)
Lemma employeeStats_entry l k e :
  Obj.get (foldl (addEmployee employees) Obj.empty l) k = Some e ->
  sales e = length (group ename l k)
  ∧ ee_total e = sumField total (group ename l k).
Proof.
  rewrite employeeStats_get. destruct (Obj.inherited k); [done|].
  destruct (group ename l k) eqn:E; [done|]. intros [= <-].
  unfold employeeBucket. fold ename. by rewrite E.
Qed.

(** The keys of the employee statistics: the names of the counted
    invoices, in the order of an object. *)
Lemma employeeStats_keys l :
  Obj.keys (foldl (addEmployee employees) Obj.empty l)
  = Obj.keyOrder (ename <$> employeeCounted employees l).
Proof. apply foldl_addEmployee_keys, clean_empty. Qed.

Lemma employeeStats_keys_elem l k :
  k ∈ Obj.keys (foldl (addEmployee employees) Obj.empty l)
  <-> Obj.inherited k = false ∧ exists inv, inv ∈ l ∧ ename inv = k.
Proof.
  rewrite employeeStats_keys, keyOrder_elem, list_elem_of_fmap.
  unfold employeeCounted. fold ename. split.
  - intros (inv & -> & Hin).
    apply list_elem_of_In, List.filter_In in Hin as [Hin Hi].
    apply negb_true_iff in Hi. split; [done|].
    exists inv. split; [by apply list_elem_of_In|done].
  - intros (Hi & inv & Hin & <-). exists inv. split; [done|].
    apply list_elem_of_In, List.filter_In. split; [by apply list_elem_of_In|].
    by apply negb_true_iff.
Qed.

Lemma employeeStats_entries l :
  Obj.entries (foldl (addEmployee employees) Obj.empty l) =
  (fun k => (k, employeeBucket employees l k))
    <$> Obj.keys (foldl (addEmployee employees) Obj.empty l).
Proof.
  apply entries_eq_map.
  - rewrite employeeStats_keys. apply keyOrder_NoDup.
  - intros H. apply employeeStats_keys_elem in H as [H _]. done.
  - intros k Hk. apply employeeStats_keys_elem in Hk as (Hi & inv & Hin & Hk).
    rewrite employeeStats_get, Hi.
    assert (inv ∈ group ename l k) as Hg by by apply group_elem.
    destruct (group ename l k); [by apply elem_of_nil in Hg|done].
Qed.

Lemma sumSales_buckets (l : list Invoice) (ks : list string) :
  foldl (fun n e => (n + sales e)%nat) 0%nat
        ((fun k => (k, employeeBucket employees l k)) <$> ks).*2 =
  length (concat (group ename l <$> ks)).
Proof.
  assert (forall n,
    foldl (fun n e => (n + sales e)%nat) n
          (((fun k => (k, employeeBucket employees l k)) <$> ks).*2) =
    (n + length (concat (group ename l <$> ks)))%nat)
    as H; [|apply H].
  induction ks as [|k ks IH]; intros n; csimpl; [lia|].
  rewrite IH, length_app. unfold ename. lia.
Qed.

(** The groups of the keys are a partition of the counted invoices. *)
Lemma employeeStats_groups l :
  concat (group ename l
            <$> Obj.keys (foldl (addEmployee employees) Obj.empty l))
  ≡ₚ employeeCounted employees l.
Proof.
  rewrite groups_select by (rewrite employeeStats_keys; apply keyOrder_NoDup).
  unfold employeeCounted.
  erewrite List.filter_ext_in; [done|]. intros inv Hin. simpl. fold ename.
  destruct (Obj.inherited (ename inv)) eqn:Hi; simpl.
  - apply bool_decide_eq_false_2. intros H.
    apply employeeStats_keys_elem in H as [H _]. congruence.
  - apply bool_decide_eq_true_2. apply employeeStats_keys_elem.
    split; [done|]. exists inv. split; [by apply list_elem_of_In|done].
Qed.

Lemma sumSales_counted l :
  sumSales (foldl (addEmployee employees) Obj.empty l)
  = length (employeeCounted employees l).
Proof.
  unfold sumSales, Obj.values.
  change (Obj.own ?o) with (Obj.entries o).
  rewrite employeeStats_entries, sumSales_buckets.
  apply Permutation_length, employeeStats_groups.
Qed.

End EmployeeStats.
(** ** Comparing numbers *)

(** Two numbers given by closed terms differ: their specifications do. *)
Ltac numbers_differ :=
  let H := fresh in
  intros H; apply (f_equal Prim2SF) in H; vm_compute in H; discriminate H.

Lemma foldl_add_fmap {A} (f : A -> JS.number) (l : list A) (acc : JS.number) :
  foldl (fun s a => JS.add s (f a)) acc l = foldl JS.add acc (f <$> l).
Proof.
  revert acc. induction l as [|a l IH]; intros acc; csimpl; [done|]. apply IH.
Qed.

Lemma sumField_fsum (field : Invoice -> string) (l : list Invoice) :
  sumField field l = fsum (JS.parseFloat ∘ field <$> l).
Proof. apply (foldl_add_fmap (JS.parseFloat ∘ field)). Qed.

Lemma paymentSummary_entry paymentMethods l k e :
  Obj.get (foldl (addPayment paymentMethods)
                 (seedPaymentSummary paymentMethods) l) k = Some e ->
  e = bucket paymentMethods l k.
Proof.
  rewrite paymentSummary_get. destruct (decide _); [|done]. by intros [= <-].
Qed.

(** ** Dates *)

Section Dates.

Lemma no_T_app (a b : string) : no_T (a ++ b) = no_T a && no_T b.
Proof.
  induction a as [|c a IH]; simpl; [done|]. rewrite IH. by rewrite andb_assoc.
Qed.

Lemma split_T_0_app (a b : string) :
  no_T a = true ->
  ISODate.split_T_0 (a ++ b) = a ++ ISODate.split_T_0 b.
Proof.
  induction a as [|c a IH]; simpl; [done|].
  intros H. apply andb_true_iff in H as [Hc Ha].
  apply negb_true_iff in Hc. rewrite Hc. by rewrite IH.
Qed.

Lemma digit_not_T (n : Z) : Ascii.eqb (ISODate.digit n) "T" = false.
Proof.
  unfold ISODate.digit.
  pose proof (Z.mod_pos_bound n 10 ltac:(lia)) as Hr.
  assert (exists k : nat, (k < 10)%nat ∧ n mod 10 = Z.of_nat k) as (k & Hk & ->).
  { exists (Z.to_nat (n mod 10)). lia. }
  do 10 (destruct k as [|k]; [reflexivity|]). lia.
Qed.

Lemma no_T_pad (w : nat) (n : Z) : no_T (ISODate.pad w n) = true.
Proof.
  revert n. induction w as [|w IH]; intros n; simpl; [done|].
  rewrite no_T_app, IH. simpl. by rewrite digit_not_T.
Qed.

Lemma no_T_year (y : Z) : no_T (ISODate.year_string y) = true.
Proof.
  unfold ISODate.year_string.
  destruct (_ && _); [apply no_T_pad|].
  rewrite no_T_app, no_T_pad. by destruct (y <? 0).
Qed.

(** The date the filter compares is the UTC calendar date of the
    invoice's time value. *)
Lemma invoiceDate_utc (t : Z) : invoiceDate t = utcDateString (ISODate.Day t).
Proof.
  unfold invoiceDate, ISODate.toISOString, utcDateString.
  destruct (ISODate.civil (ISODate.Day t)) as [[y m] d].
  rewrite split_T_0_app by apply no_T_year. simpl.
  by rewrite !digit_not_T.
Qed.

Lemma dateFilter_utc (selectedDate : string) (invoice : Invoice) :
  dateFilter selectedDate invoice =
  if hasInvalidDate invoice then Throw RangeError
  else Normal (utcDateFilter selectedDate invoice).
Proof.
  unfold dateFilter, hasInvalidDate, utcDateFilter.
  destruct (date invoice); try done. by rewrite invoiceDate_utc.
Qed.

End Dates.

(** The test on the length of the list is covered by the search: the
    empty list has no cash method. *)
Lemma systemCash_find (openingCash : string) (ps : PaymentSummary)
    (paymentMethods : list PaymentMethod) :
  systemCash openingCash ps paymentMethods =
  match List.find (fun m => String.eqb (code m) "cash") paymentMethods with
  | None => PrimFloat.zero
  | Some cashMethod =>
      JS.add (JS.parseFloat openingCash)
        (match Obj.get ps (pm_name cashMethod) with
         | Some e => JS.or_zero (pe_total e)
         | None => PrimFloat.zero
         end)
  end.
Proof. by destruct paymentMethods. Qed.

(** ** Scenarios *)

(** The scenarios of the description: opening cash 100.00 and one
    delivered cash sale of 50.00 give a system cash of 150.00, and a
    counted cash of 140.00 then gives a variance of -10.00. *)
Example systemCash_150 :
  let ps := paymentSummary (dailySummary [sale "cash" "50.00"]
                              samplePaymentMethods sampleEmployees) in
  systemCash "100.00" ps samplePaymentMethods = JS.parseFloat "150.00"
  ∧ variance "140.00" (systemCash "100.00" ps samplePaymentMethods)
    = JS.parseFloat "-10.00".
Proof. by vm_compute. Qed.

(** One delivered cash sale of 25.00 by Ana, opening cash 0. *)
Example scenario_25 :
  let ds := dailySummary [sale "cash" "25.00"] samplePaymentMethods
                         sampleEmployees in
  totalRevenue ds = JS.parseFloat "25.00"
  ∧ Obj.get (paymentSummary ds) "Efectivo"
    = Some {| quantity := 1; pe_total := JS.parseFloat "25.00" |}
  ∧ Obj.get (employeeStats ds) "Ana"
    = Some {| sales := 1; ee_total := JS.parseFloat "25.00" |}
  ∧ systemCash "0" (paymentSummary ds) samplePaymentMethods
    = JS.parseFloat "25.00".
Proof. by vm_compute. Qed.

(** An unknown payment-method code goes to [Pendiente], an unknown
    employee to [Desconocido]. *)
Example unknown_code_and_employee :
  let inv := mkInvoice DateMissing "delivered" true (Some "xyz") "missing"
                       "10.00" "0.00" "10.00" in
  let ds := dailySummary [inv] samplePaymentMethods sampleEmployees in
  (quantity <$> Obj.get (paymentSummary ds) "Pendiente") = Some 1%nat
  ∧ (sales <$> Obj.get (employeeStats ds) "Desconocido") = Some 1%nat.
Proof. by vm_compute. Qed.

(** Names that an object treats in its own way.  The payment methods
    named [10] and [2] are listed first, in numeric order; the one named
    [__proto__] has no entry of its own, and its sale is counted on the
    prototype; the sale of the employee named [toString] makes no entry,
    so that the date shows as one without sales. *)
Example special_names :
  let pms := [ {| code := "a"; pm_name := "Efectivo" |};
               {| code := "b"; pm_name := "10" |};
               {| code := "c"; pm_name := "__proto__" |};
               {| code := "d"; pm_name := "2" |} ] in
  let emps := [ {| emp_id := "e1"; emp_name := "toString" |} ] in
  let ds := dailySummary [sale "c" "5.00"] pms emps in
  Obj.keys (paymentSummary ds) = ["2"; "10"; "Efectivo"; "Pendiente"]
  ∧ Obj.proto (paymentSummary ds)
    = Some {| quantity := 1; pe_total := JS.parseFloat "5.00" |}
  ∧ displayedPayments (paymentSummary ds) = []
  ∧ Obj.entries (employeeStats ds) = []
  ∧ noSales (employeeStats ds) = true
  ∧ deliveredInvoices ds = 1%nat.
Proof. by vm_compute. Qed.

(** White space before a number is skipped, also the no-break space
    (C2 A0) and the byte-order mark (EF BB BF); a zero-width space (E2 80
    8B) is no white space. *)
Example parseFloat_white_space :
  JS.parseFloat (String (ascii_of_N 194) (String (ascii_of_N 160) " 12.5"))
    = 12.5%float
  ∧ JS.parseFloat
      (String (ascii_of_N 239) (String (ascii_of_N 187)
         (String (ascii_of_N 191) "3"))) = 3%float
  ∧ JS.parseFloat
      (String (ascii_of_N 226) (String (ascii_of_N 128)
         (String (ascii_of_N 139) "3"))) = PrimFloat.nan.
Proof. by vm_compute. Qed.

(** * The claims *)

(** C1, as stated, fails: with an opening cash of 100.00 the system cash
    is 0, not 100.00, when there is no payment method at all and when
    there is none with the code [cash]; and when the total of the cash
    entry is NaN the system cash is the opening cash plus 0. *)
Lemma systemCash_without_cash_method :
  let card := [ {| code := "card"; pm_name := "Tarjeta" |} ] in
  let ps := paymentSummary (dailySummary [sale "cash" "abc"]
                              samplePaymentMethods sampleEmployees) in
  systemCash "100.00" (paymentSummary (dailySummary [] [] [])) []
    = PrimFloat.zero
  ∧ systemCash "100.00" (paymentSummary (dailySummary [] card [])) card
    = PrimFloat.zero
  ∧ PrimFloat.zero ≠ JS.parseFloat "100.00"
  ∧ (pe_total <$> Obj.get ps "Efectivo") = Some PrimFloat.nan
  ∧ systemCash "100.00" ps samplePaymentMethods = JS.parseFloat "100.00"
  ∧ JS.add (JS.parseFloat "100.00") PrimFloat.nan ≠ JS.parseFloat "100.00".
Proof.
  split; [by vm_compute|]. split; [by vm_compute|].
  split; [numbers_differ|].
  split; [by vm_compute|]. split; [by vm_compute|]. numbers_differ.
Qed.

(** C1, amended: when a payment method with the code [cash] is
    configured, the payment summary has an entry for the name of the first
    such method and the system cash is the parsed opening cash plus the
    total of that entry (plus 0 when that total is NaN or zero); when none
    is configured, which includes the empty list, the system cash is 0. *)
Theorem systemCash_spec
    (invoices : list Invoice) (paymentMethods : list PaymentMethod)
    (employees : list Employee) (openingCash : string) :
  let ds := dailySummary invoices paymentMethods employees in
  let sc := systemCash openingCash (paymentSummary ds) paymentMethods in
  match List.find (fun m => String.eqb (code m) "cash") paymentMethods with
  | Some cashMethod =>
      exists e,
        Obj.get (paymentSummary ds) (pm_name cashMethod) = Some e
        ∧ (JS.truthy (pe_total e) = true ->
           sc = JS.add (JS.parseFloat openingCash) (pe_total e))
        ∧ (JS.truthy (pe_total e) = false ->
           sc = JS.add (JS.parseFloat openingCash) PrimFloat.zero)
  | None => sc = PrimFloat.zero
  end.
Proof.
  intros ds sc. subst sc. rewrite systemCash_find.
  destruct (List.find _ paymentMethods) as [m|] eqn:Hfind; [|done].
  assert (is_Some (Obj.get (paymentSummary ds) (pm_name m))) as [e He].
  { subst ds. simpl. rewrite paymentSummary_get, decide_True; [done|].
    apply method_seeded.
    apply List.find_some in Hfind as [Hin _]. by apply list_elem_of_In. }
  exists e. rewrite He. unfold JS.or_zero.
  split; [done|]. split; intros ->; done.
Qed.

(** C2, as stated, fails: in a zone four hours behind UTC the invoice of
    2024-01-15 01:30 UTC has the local date 2024-01-14, and the query for
    2024-01-14 leaves it out while the query for 2024-01-15 keeps it. *)
Lemma fetchInvoices_not_local_date :
  localDate 240 1705282200000 = "2024-01-14"
  ∧ fetchInvoices [lateInvoice] "2024-01-14" = Normal []
  ∧ List.filter (localDateFilter 240 "2024-01-14") [lateInvoice] = [lateInvoice]
  ∧ fetchInvoices [lateInvoice] "2024-01-15" = Normal [lateInvoice]
  ∧ List.filter (localDateFilter 240 "2024-01-15") [lateInvoice] = [].
Proof. by vm_compute. Qed.

(** C2, amended: the query keeps, in order, exactly the invoices that
    have a date whose UTC calendar date equals the selected date; an
    invoice without a date is left out, and a date that cannot be read
    makes the query fail. *)
Theorem fetchInvoices_utc_date (data : list Invoice) (selectedDate : string) :
  fetchInvoices data selectedDate =
    (if existsb hasInvalidDate data then Throw RangeError
     else Normal (List.filter (utcDateFilter selectedDate) data))
  ∧ (forall inv,
       utcDateFilter selectedDate inv = true <->
       exists t, date inv = DateAt t
                 ∧ utcDateString (t / 86400000) = selectedDate).
Proof.
  split.
  - unfold fetchInvoices.
    induction data as [|inv data IH]; simpl; [done|].
    rewrite dateFilter_utc. destruct (hasInvalidDate inv); simpl; [done|].
    rewrite IH. by destruct (existsb hasInvalidDate data).
  - intros inv. unfold utcDateFilter.
    destruct (date inv) as [| |t]; split; try done.
    + intros (t & ? & _). done.
    + intros (t & ? & _). done.
    + intros H. exists t. split; [done|]. by apply String.eqb_eq.
    + intros (t' & [= <-] & H). by apply String.eqb_eq.
Qed.

(** C3, as stated, fails: for two cash sales of 0.10 and 0.20 the exact
    decimal sum is 0.30, and the total revenue is 0.30000000000000004;
    for sales of 9007199254740992.00, 1.00 and 1.00 the exact sum is
    9007199254740994.00 and the total revenue is 9007199254740992.00, two
    units short. *)
Lemma sums_not_exact_decimal :
  let ds := dailySummary driftInvoices samplePaymentMethods sampleEmployees in
  let big := dailySummary largeInvoices samplePaymentMethods sampleEmployees in
  exactDecimalSum (total <$> List.filter isDelivered driftInvoices)
    = Some (JS.parseFloat "0.30")
  ∧ totalRevenue ds = JS.parseFloat "0.30000000000000004"
  ∧ totalRevenue ds ≠ JS.parseFloat "0.30"
  ∧ exactDecimalSum (total <$> List.filter isDelivered largeInvoices)
    = Some (JS.parseFloat "9007199254740994.00")
  ∧ totalRevenue big = JS.parseFloat "9007199254740992.00"
  ∧ totalRevenue big ≠ JS.parseFloat "9007199254740994.00".
Proof.
  split; [by vm_compute|]. split; [by vm_compute|].
  split; [numbers_differ|].
  split; [by vm_compute|]. split; [by vm_compute|]. numbers_differ.
Qed.

(** C3, amended: every monetary sum of the summary is a binary64
    floating-point sum.  The revenue, subtotal and tax totals, the total
    of each payment-summary entry and the total of each employee entry
    are sums of [parseFloat] values added left to right from 0 with the
    binary64 addition; the system cash is 0 or a binary64 addition to the
    parsed opening cash; the variance is a binary64 subtraction. *)
Theorem sums_are_binary64
    (invoices : list Invoice) (paymentMethods : list PaymentMethod)
    (employees : list Employee) (openingCash countedCash : string) :
  let ds := dailySummary invoices paymentMethods employees in
  let delivered := List.filter isDelivered invoices in
  let sc := systemCash openingCash (paymentSummary ds) paymentMethods in
  let sum field l := foldl PrimFloat.add PrimFloat.zero (JS.parseFloat ∘ field <$> l) in
  totalRevenue ds = sum total delivered
  ∧ totalSubtotal ds = sum subtotal delivered
  ∧ totalTax ds = sum tax delivered
  ∧ (forall k e, Obj.get (paymentSummary ds) k = Some e ->
       pe_total e = sum total (group (methodName paymentMethods) delivered k))
  ∧ (forall k e, Obj.get (employeeStats ds) k = Some e ->
       ee_total e = sum total (group (employeeName employees) delivered k))
  ∧ (sc = PrimFloat.zero
     ∨ exists t, sc = PrimFloat.add (JS.parseFloat openingCash) t)
  ∧ variance countedCash sc =
      PrimFloat.sub (JS.or_zero (JS.parseFloat countedCash)) sc.
Proof.
  intros ds delivered sc sum. subst ds sc sum. simpl. fold delivered.
  repeat split; try exact (sumField_fsum _ _).
  - intros k e He. apply paymentSummary_entry in He. subst e.
    exact (sumField_fsum _ _).
  - intros k e He. apply employeeStats_entry in He as [_ ->].
    exact (sumField_fsum _ _).
  - unfold systemCash. destruct paymentMethods as [|m pms]; [by left|].
    destruct (List.find _ (m :: pms)); [|by left].
    right. eexists. reflexivity.
Qed.

(** C4, as stated, fails: the total [abc] cannot be parsed, yet the
    summary is produced, with one delivered invoice and a NaN revenue; a
    counted cash of [abc] is taken as 0 in the variance; and an opening
    cash of [abc] is sent as 0 by the create request. *)
Lemma malformed_amount_no_error :
  let ds := dailySummary [sale "cash" "abc"] samplePaymentMethods
                         sampleEmployees in
  JS.isNaN (JS.parseFloat "abc") = true
  ∧ deliveredInvoices ds = 1%nat
  ∧ JS.isNaN (totalRevenue ds) = true
  ∧ variance "abc" (JS.parseFloat "150.00") = JS.parseFloat "-150.00"
  ∧ handleCreateCashClosure (formState "abc" "10") =
      Mutate {| closingDate := "2024-01-15";
                cd_openingCash := PrimFloat.zero;
                cd_countedCash := JS.parseFloat "10";
                cd_notes := None |}.
Proof. by vm_compute. Qed.

(** C4, amended: no monetary field raises an error, the computation
    always returns.  A total, subtotal or tax of a delivered invoice that
    cannot be parsed is read as NaN and makes the corresponding sum NaN,
    and the payment-summary entry the invoice is added to as well; a
    counted cash that cannot be parsed is taken as 0 in the variance; an
    opening cash that cannot be parsed is sent as 0 by the create
    request. *)
Theorem malformed_amounts_propagate
    (invoices : list Invoice) (paymentMethods : list PaymentMethod)
    (employees : list Employee) (st : State) (sc : JS.number) :
  let ds := dailySummary invoices paymentMethods employees in
  let delivered := List.filter isDelivered invoices in
  let unparsed s := JS.isNaN (JS.parseFloat s) = true in
  (forall inv, inv ∈ delivered -> unparsed (total inv) ->
     JS.isNaN (totalRevenue ds) = true
     ∧ exists e,
         Obj.get (paymentSummary ds) (methodName paymentMethods inv) = Some e
         ∧ JS.isNaN (pe_total e) = true)
  ∧ (forall inv, inv ∈ delivered -> unparsed (subtotal inv) ->
       JS.isNaN (totalSubtotal ds) = true)
  ∧ (forall inv, inv ∈ delivered -> unparsed (tax inv) ->
       JS.isNaN (totalTax ds) = true)
  ∧ (unparsed (countedCash st) ->
       variance (countedCash st) sc = JS.sub PrimFloat.zero sc)
  ∧ (unparsed (openingCash st) ->
       forall data, handleCreateCashClosure st = Mutate data ->
                    cd_openingCash data = PrimFloat.zero).
Proof.
  intros ds delivered unparsed. subst ds unparsed. simpl. fold delivered.
  split; [|split; [|split; [|split]]].
  - intros inv Hin Hnan. split.
    + unfold sumField. by rewrite (foldl_add_has_nan _ _ inv).
    + eexists. split.
      { rewrite paymentSummary_get, decide_True by apply methodName_seeded.
        reflexivity. }
      unfold bucket, sumField. simpl.
      rewrite (foldl_add_has_nan _ _ inv); [done| |done].
      by apply (elem_of_group (methodName paymentMethods)).
  - intros inv Hin Hnan. unfold sumField.
    by rewrite (foldl_add_has_nan _ _ inv).
  - intros inv Hin Hnan. unfold sumField.
    by rewrite (foldl_add_has_nan _ _ inv).
  - intros Hnan. unfold variance. by rewrite (isNaN_eq _ Hnan).
  - intros Hnan data. unfold handleCreateCashClosure.
    destruct (_ || _); [done|]. intros [= <-]. simpl.
    by rewrite (isNaN_eq _ Hnan).
Qed.

(** C6, as stated, fails: with a cash sale of 0.10, a card sale of 0.10
    and a cash sale of 1.10 the total revenue is 1.3, while the totals of
    the payment summary add up to 1.3000000000000003 in whatever order
    they are taken. *)
Lemma payment_totals_not_revenue :
  let ds := dailySummary regroupInvoices samplePaymentMethods sampleEmployees in
  totalRevenue ds = JS.parseFloat "1.3"
  ∧ Forall (fun l => fsum l = JS.parseFloat "1.3000000000000003")
           (permutations (pe_total <$> Obj.values (paymentSummary ds)))
  ∧ sumTotal (paymentSummary ds) ≠ totalRevenue ds.
Proof.
  split; [by vm_compute|]. split.
  - vm_compute. repeat constructor.
  - numbers_differ.
Qed.

(** C6, amended: the total revenue is the left-to-right sum of the
    totals of the delivered invoices; each entry of the payment summary
    holds the left-to-right sum of the totals of the delivered invoices
    that resolve to its key; and these groups, over the distinct keys of
    the summary, are a partition of the delivered invoices that resolve
    to another name than [__proto__], which are all the delivered
    invoices when no payment method has that name.  Both sides add the
    same amounts, grouped differently. *)
Theorem payment_totals_regroup
    (invoices : list Invoice) (paymentMethods : list PaymentMethod)
    (employees : list Employee) :
  let ds := dailySummary invoices paymentMethods employees in
  let delivered := List.filter isDelivered invoices in
  let keys := Obj.keys (paymentSummary ds) in
  totalRevenue ds = sumField total delivered
  ∧ Obj.entries (paymentSummary ds)
    = ((fun k => (k, bucket paymentMethods delivered k)) <$> keys)
  ∧ NoDup keys
  ∧ concat (group (methodName paymentMethods) delivered <$> keys)
    ≡ₚ paymentCounted paymentMethods delivered
  ∧ ("__proto__" ∉ pm_name <$> paymentMethods ->
     paymentCounted paymentMethods delivered = delivered).
Proof.
  intros ds delivered keys. subst ds keys. simpl. fold delivered.
  rewrite foldl_addPayment_keys.
  split; [done|]. split; [apply paymentSummary_entries|].
  split; [apply seed_NoDup|]. split; [apply paymentSummary_groups|].
  apply paymentCounted_all.
Qed.

(** C7 fails on the code for a payment method of the name [__proto__]:
    the assignment [paymentSummary['__proto__'] = ...] of the seeding
    makes the entry the prototype of the summary and no own property, so
    the delivered invoice of that method is counted on the prototype and
    in no entry of the summary: there is one delivered invoice, and the
    quantities of the entries add up to 0. *)
Lemma quantities_miss_proto_method :
  let pms := [ {| code := "x"; pm_name := "__proto__" |} ] in
  let ds := dailySummary [sale "x" "5.00"] pms sampleEmployees in
  deliveredInvoices ds = 1%nat
  ∧ methodName pms (sale "x" "5.00") = "__proto__"
  ∧ Obj.entries (paymentSummary ds) = [("Pendiente", zeroEntry)]
  ∧ Obj.get (paymentSummary ds) "__proto__"
    = Some {| quantity := 1; pe_total := JS.parseFloat "5.00" |}
  ∧ sumQuantity (paymentSummary ds) = 0%nat
  ∧ sumQuantity (paymentSummary ds) ≠ deliveredInvoices ds.
Proof. by vm_compute. Qed.



(** C9: the request is rejected with the validation toast, and the
    create mutation is not invoked, exactly when the counted cash is
    missing (the empty string) or parses to a number below 0; in every
    other case the mutation is invoked, with the selected date, the opening
    cash and the counted cash. *)
Theorem handleCreateCashClosure_validation (st : State) :
  let invalid :=
    countedCash st = ""
    ∨ JS.lt (JS.parseFloat (countedCash st)) PrimFloat.zero = true in
  (invalid ->
     handleCreateCashClosure st =
       Toast "❌ Error de validación"
             "Debe ingresar el dinero contado físicamente")
  ∧ (¬ invalid ->
     handleCreateCashClosure st =
       Mutate {| closingDate := selectedDate st;
                 cd_openingCash := JS.or_zero (JS.parseFloat (openingCash st));
                 cd_countedCash := JS.parseFloat (countedCash st);
                 cd_notes :=
                   if JS.truthy_str (notes st) then Some (notes st) else None |})
  ∧ (forall data, handleCreateCashClosure st = Mutate data -> ¬ invalid).
Proof.
  intros invalid. subst invalid. unfold handleCreateCashClosure.
  destruct (countedCash st) as [|c s] eqn:Hc; simpl.
  - split; [done|]. split; [|done]. intros H. contradict H. by left.
  - destruct (JS.lt _ _) eqn:Hlt.
    + split; [done|]. split; [|done]. intros H. contradict H. by right.
    + split; [|split; [done|]].
      * intros [?|?]; done.
      * intros _ _ [?|?]; done.
Qed.

(** C10: no invoice is both delivered and pending; delivered plus pending
    never exceeds the total; and the invoices in neither set, which are
    the paid ones that are not delivered and the unpaid cancelled ones,
    make up the rest of the total. *)
Theorem delivered_pending_disjoint
    (invoices : list Invoice) (paymentMethods : list PaymentMethod)
    (employees : list Employee) :
  let ds := dailySummary invoices paymentMethods employees in
  (forall inv, ¬ (isDelivered inv = true ∧ isPending inv = true))
  ∧ (deliveredInvoices ds + pendingInvoices ds <= totalInvoices ds)%nat
  ∧ totalInvoices ds =
      (deliveredInvoices ds + pendingInvoices ds
       + length (List.filter isOther invoices))%nat
  ∧ (forall inv,
       isOther inv = true <->
       (paid inv = true ∧ status inv ≠ "delivered")
       ∨ (paid inv = false ∧ status inv = "cancelled")).
Proof.
  simpl. split; [|split; [|split]].
  - intros inv [Hd Hp]. rewrite (delivered_not_pending inv Hd) in Hp. done.
  - rewrite (length_three_way invoices). lia.
  - apply length_three_way.
  - apply isOther_spec.
Qed.


(** * Further properties *)

(** ** Rows and names *)

Lemma fst_fmap_keys {V} (b : string -> V) (ks : list string) :
  ((fun k => (k, b k)) <$> ks).*1 = ks.
Proof.
  induction ks as [|k ks IH]; csimpl; [done|]. by rewrite IH.
Qed.

Lemma seededNames_elem (paymentMethods : list PaymentMethod) (k : string) :
  k ∈ seededNames paymentMethods
  <-> k = "Pendiente" ∨ k ∈ pm_name <$> paymentMethods.
Proof.
  unfold seededNames. rewrite elem_of_app, list_elem_of_singleton. tauto.
Qed.

(** ** The daily summary *)

(** X1: the entries of the payment summary, whatever the invoices are.
    There is one entry per distinct payment-method name other than
    [__proto__], and the entry [Pendiente].  [Object.entries] lists the
    names that are array indices first, in ascending numeric order, and
    then the other names in the order of the list, with [Pendiente] last
    (unless a method has that name).  Reading [paymentSummary[name]]
    finds an entry exactly for the names of the methods and for
    [Pendiente]: the entry of a method named [__proto__] is found there
    although it is not among the entries. *)
Theorem paymentSummary_keys
    (invoices : list Invoice) (paymentMethods : list PaymentMethod)
    (employees : list Employee) :
  let ps := paymentSummary (dailySummary invoices paymentMethods employees) in
  let listed := List.filter notProto (seededNames paymentMethods) in
  Obj.keys ps =
    (List.filter Obj.isArrayIndex (Obj.keys ps)
     ++ firstOccurrences (List.filter isName listed))%list
  ∧ StronglySorted Obj.indexLt (List.filter Obj.isArrayIndex (Obj.keys ps))
  ∧ NoDup (Obj.keys ps)
  ∧ (forall k, k ∈ Obj.keys ps <->
               (k = "Pendiente" ∨ k ∈ pm_name <$> paymentMethods)
               ∧ k ≠ "__proto__")
  ∧ (forall k, is_Some (Obj.get ps k) <->
               k = "Pendiente" ∨ k ∈ pm_name <$> paymentMethods).
Proof.
  simpl. rewrite foldl_addPayment_keys.
  split; [|split; [|split; [apply seed_NoDup|split]]].
  - rewrite seed_keys_order. apply keyOrder_spec.
  - rewrite seed_keys_order. apply keyOrder_spec.
  - intros k. by rewrite seed_keys, seededNames_elem.
  - intros k. rewrite paymentSummary_get, <- seededNames_elem.
    destruct (decide _) as [Hk|Hk]; split; done.
Qed.

(** X2: the entries of the employee statistics.  There is one entry per
    name that a delivered invoice is attributed to, except the names of
    [Object.prototype] ([constructor], [toString], [__proto__] and the
    like), whose invoices make no entry.  [Object.keys] lists the names
    that are array indices first, in ascending numeric order, and then
    the other names in the order of their first invoice.  Each entry
    counts the delivered invoices of its name, at least one, and the
    sales add up to the number of delivered invoices whose name is not
    one of [Object.prototype].  The prototype of the statistics stays
    [Object.prototype]. *)
Theorem employeeStats_spec
    (invoices : list Invoice) (paymentMethods : list PaymentMethod)
    (employees : list Employee) :
  let ds := dailySummary invoices paymentMethods employees in
  let delivered := List.filter isDelivered invoices in
  let counted := employeeCounted employees delivered in
  let es := employeeStats ds in
  Obj.keys es =
    (List.filter Obj.isArrayIndex (Obj.keys es)
     ++ firstOccurrences
          (List.filter isName (employeeName employees <$> counted)))%list
  ∧ StronglySorted Obj.indexLt (List.filter Obj.isArrayIndex (Obj.keys es))
  ∧ NoDup (Obj.keys es)
  ∧ (forall k, k ∈ Obj.keys es <->
               Obj.inherited k = false
               ∧ exists inv, inv ∈ delivered ∧ employeeName employees inv = k)
  ∧ (forall k e, Obj.get es k = Some e ->
       k ∈ Obj.keys es
       ∧ e = employeeBucket employees delivered k
       ∧ (1 <= sales e)%nat)
  ∧ Obj.entries es
    = ((fun k => (k, employeeBucket employees delivered k)) <$> Obj.keys es)
  ∧ Obj.proto es = None
  ∧ sumSales es = length counted
  ∧ (sumSales es <= deliveredInvoices ds)%nat.
Proof.
  intros ds delivered counted es. subst ds es counted. simpl. fold delivered.
  split; [|split; [|split; [|split; [|split; [|split; [|split; [|split]]]]]]].
  - rewrite employeeStats_keys. apply keyOrder_spec.
  - rewrite employeeStats_keys. apply keyOrder_spec.
  - rewrite employeeStats_keys. apply keyOrder_NoDup.
  - apply employeeStats_keys_elem.
  - intros k e. rewrite employeeStats_get.
    destruct (Obj.inherited k) eqn:Hi; [done|].
    destruct (group (employeeName employees) delivered k) as [|inv g] eqn:E;
      [done|].
    intros [= <-]. split; [|split; [done|]].
    + apply employeeStats_keys_elem. split; [done|].
      assert (inv ∈ group (employeeName employees) delivered k) as Hin
        by (rewrite E; apply list_elem_of_here).
      apply group_elem in Hin as [Hin Hk]. by exists inv.
    + unfold employeeBucket. simpl. rewrite E. simpl. lia.
  - apply employeeStats_entries.
  - apply employeeStats_proto.
  - apply sumSales_counted.
  - rewrite sumSales_counted. apply filter_length_le.
Qed.

(** X3: the notice that the date has no sales is shown exactly when
    every delivered invoice is attributed to a name of
    [Object.prototype]; in particular when no invoice is delivered. *)
Theorem noSales_iff_none_counted
    (invoices : list Invoice) (paymentMethods : list PaymentMethod)
    (employees : list Employee) :
  let ds := dailySummary invoices paymentMethods employees in
  let delivered := List.filter isDelivered invoices in
  (noSales (employeeStats ds) = true <->
   forall inv, inv ∈ delivered ->
               Obj.inherited (employeeName employees inv) = true)
  ∧ (deliveredInvoices ds = 0%nat -> noSales (employeeStats ds) = true).
Proof.
  intros ds delivered. subst ds. simpl. fold delivered.
  assert (noSales (foldl (addEmployee employees) Obj.empty delivered) = true
          <-> employeeCounted employees delivered = []) as Hiff.
  { unfold noSales. rewrite Nat.eqb_eq, employeeStats_keys. split.
    - intros Hlen. destruct (employeeCounted employees delivered) as [|inv l];
        [done|]. exfalso.
      assert (employeeName employees inv
                ∈ Obj.keyOrder (employeeName employees <$> inv :: l)) as Hin.
      { apply keyOrder_elem. apply list_elem_of_here. }
      destruct (Obj.keyOrder _); [by apply elem_of_nil in Hin|done].
    - by intros ->. }
  split.
  - rewrite Hiff. unfold employeeCounted. rewrite filter_nil_iff.
    split; intros H inv Hin; specialize (H inv Hin).
    + by apply negb_false_iff in H.
    + by apply negb_false_iff.
  - intros Hlen. apply Hiff. destruct delivered; [done|discriminate].
Qed.

(** X4: the payment rows that are shown, printed and exported are those
    of the names, other than [__proto__], that some delivered invoice
    resolves to, each once, with the count and the sum of its invoices;
    leaving out the rows without invoices loses no invoice, so the shown
    quantities add up to what all entries add up to, the number of the
    delivered invoices that do not resolve to [__proto__]; and there are
    at most as many rows as delivered invoices. *)
Theorem displayedPayments_spec
    (invoices : list Invoice) (paymentMethods : list PaymentMethod)
    (employees : list Employee) :
  let ds := dailySummary invoices paymentMethods employees in
  let delivered := List.filter isDelivered invoices in
  let shown := displayedPayments (paymentSummary ds) in
  (forall k, k ∈ shown.*1 <->
             k ≠ "__proto__"
             ∧ exists inv, inv ∈ delivered ∧ methodName paymentMethods inv = k)
  ∧ shown = ((fun k => (k, bucket paymentMethods delivered k)) <$> shown.*1)
  ∧ NoDup shown.*1
  ∧ rowsQuantity shown = sumQuantity (paymentSummary ds)
  ∧ rowsQuantity shown = length (paymentCounted paymentMethods delivered)
  ∧ (length shown <= deliveredInvoices ds)%nat.
Proof.
  intros ds delivered shown. subst ds shown. simpl. fold delivered.
  unfold displayedPayments, sumQuantity, Obj.values.
  change (Obj.own ?o) with (Obj.entries o).
  rewrite paymentSummary_entries.
  rewrite (filter_fmap_bool
             (fun '(_, data) => (0 <? quantity data)%nat)
             (fun k => (k, bucket paymentMethods delivered k))).
  simpl. rewrite fst_fmap_keys.
  set (ks := Obj.keys (seedPaymentSummary paymentMethods)).
  set (name := methodName paymentMethods).
  assert (forall k,
    k ∈ List.filter (fun k => (0 <? length (group name delivered k))%nat) ks
    <-> k ≠ "__proto__" ∧ exists inv, inv ∈ delivered ∧ name inv = k) as Hkeys.
  { intros k. rewrite list_elem_of_In, List.filter_In, <- list_elem_of_In.
    rewrite Nat.ltb_lt. unfold ks. rewrite seed_keys. split.
    - intros [[_ Hk] Hlen]. split; [done|].
      assert (group name delivered k ≠ []) as Hne
        by (destruct (group name delivered k); simpl in *; [lia|done]).
      apply group_nonempty, list_elem_of_fmap in Hne as (inv & -> & Hin).
      by exists inv.
    - intros (Hk & inv & Hin & <-). split; [split; [|done]|].
      + apply methodName_seeded.
      + apply (elem_of_group name) in Hin.
        destruct (group name delivered (name inv));
          [by apply elem_of_nil in Hin|simpl; lia]. }
  assert (rowsQuantity
            ((fun k => (k, bucket paymentMethods delivered k))
               <$> List.filter
                     (fun k => (0 <? length (group name delivered k))%nat) ks)
          = length (paymentCounted paymentMethods delivered)) as Hsum.
  { rewrite rowsQuantity_buckets. fold name. rewrite groups_nonempty_only.
    apply Permutation_length, paymentSummary_groups. }
  split; [done|]. split; [done|].
  split; [apply NoDup_filter_bool, seed_NoDup|].
  split; [|split; [done|]].
  - rewrite Hsum. symmetry.
    change (rowsQuantity ((fun k => (k, bucket paymentMethods delivered k))
                            <$> ks)
            = length (paymentCounted paymentMethods delivered)).
    rewrite rowsQuantity_buckets.
    apply Permutation_length, paymentSummary_groups.
  - rewrite length_fmap.
    etrans; [apply (groups_nonempty_count name)|].
    subst ks name.
    rewrite (Permutation_length (paymentSummary_groups _ _)).
    apply filter_length_le.
Qed.

(** X20: the quantities of the entries of the payment summary add up to
    the number of the delivered invoices that resolve to another name
    than [__proto__]; with no payment method of that name they add up to
    the number of delivered invoices.  Every delivered invoice is counted
    where [paymentSummary[name]] finds the name it resolves to, and an
    invoice whose payment-method code matches no payment method resolves
    to [Pendiente].  The delivered invoices are those with the status
    [delivered] that are paid. *)
Theorem quantities_sum_counted
    (invoices : list Invoice) (paymentMethods : list PaymentMethod)
    (employees : list Employee) :
  let ds := dailySummary invoices paymentMethods employees in
  let delivered := List.filter isDelivered invoices in
  sumQuantity (paymentSummary ds)
    = length (paymentCounted paymentMethods delivered)
  ∧ ("__proto__" ∉ pm_name <$> paymentMethods ->
     sumQuantity (paymentSummary ds) = deliveredInvoices ds)
  ∧ (forall inv, inv ∈ delivered ->
       exists e,
         Obj.get (paymentSummary ds) (methodName paymentMethods inv) = Some e
         ∧ (0 < quantity e)%nat)
  ∧ (forall inv,
       List.find (fun m => bool_decide (Some (code m) = paymentMethod inv))
                 paymentMethods = None ->
       methodName paymentMethods inv = "Pendiente")
  ∧ deliveredInvoices ds = length delivered
  ∧ (forall inv, inv ∈ delivered <->
       inv ∈ invoices ∧ status inv = "delivered" ∧ paid inv = true).
Proof.
  intros ds delivered. subst ds. simpl. fold delivered.
  assert (forall inv, inv ∈ delivered <->
            inv ∈ invoices ∧ status inv = "delivered" ∧ paid inv = true)
    as Hdelivered.
  { intros inv. unfold delivered.
    rewrite list_elem_of_In, List.filter_In, <- list_elem_of_In.
    unfold isDelivered. by rewrite andb_true_iff, String.eqb_eq. }
  assert (sumQuantity (foldl (addPayment paymentMethods)
                             (seedPaymentSummary paymentMethods) delivered)
          = length (paymentCounted paymentMethods delivered)) as Hsum.
  { unfold sumQuantity, Obj.values.
    change (Obj.own ?o) with (Obj.entries o).
    rewrite paymentSummary_entries.
    change (rowsQuantity
              ((fun k => (k, bucket paymentMethods delivered k))
                 <$> Obj.keys (seedPaymentSummary paymentMethods))
            = length (paymentCounted paymentMethods delivered)).
    rewrite rowsQuantity_buckets.
    apply Permutation_length, paymentSummary_groups. }
  split; [done|]. split; [|split].
  - intros Hno. by rewrite Hsum, paymentCounted_all.
  - intros inv Hin. eexists. split.
    + rewrite paymentSummary_get, decide_True by apply methodName_seeded.
      reflexivity.
    + simpl. apply (elem_of_group (methodName paymentMethods)) in Hin.
      destruct (group _ delivered _); [by apply elem_of_nil in Hin|].
      simpl. lia.
  - split; [|done]. intros inv Hnone. unfold methodName. by rewrite Hnone.
Qed.

(** X5: an invoice that is not delivered (not paid, or in another status)
    adds to no monetary sum: with or without it the revenue, subtotal and
    tax totals, the payment summary, the employee statistics and the
    delivered count are the same; it counts in the total, and among the
    pending ones when it is pending. *)
Theorem undelivered_invoice_ignored
    (l1 l2 : list Invoice) (inv : Invoice)
    (paymentMethods : list PaymentMethod) (employees : list Employee) :
  isDelivered inv = false ->
  let ds := dailySummary (l1 ++ inv :: l2) paymentMethods employees in
  let ds' := dailySummary (l1 ++ l2) paymentMethods employees in
  totalRevenue ds = totalRevenue ds'
  ∧ totalSubtotal ds = totalSubtotal ds'
  ∧ totalTax ds = totalTax ds'
  ∧ paymentSummary ds = paymentSummary ds'
  ∧ employeeStats ds = employeeStats ds'
  ∧ deliveredInvoices ds = deliveredInvoices ds'
  ∧ totalInvoices ds = S (totalInvoices ds')
  ∧ pendingInvoices ds =
      (if isPending inv then S (pendingInvoices ds') else pendingInvoices ds').
Proof.
  intros Hd. simpl.
  assert (List.filter isDelivered (l1 ++ inv :: l2)
          = List.filter isDelivered (l1 ++ l2)) as ->.
  { rewrite !List.filter_app. simpl. by rewrite Hd. }
  repeat (split; [done|]). split.
  - rewrite !length_app. simpl. lia.
  - rewrite !List.filter_app. simpl.
    destruct (isPending inv); rewrite !length_app; simpl; lia.
Qed.

Lemma undelivered_invoice_ignored_witness :
  let pendingInv := mkInvoice DateMissing "ready" false None "e1"
                              "10.00" "1.80" "11.80" in
  let ds := dailySummary ([sale "cash" "50.00"] ++ pendingInv :: [sale "card" "20.00"])
                         samplePaymentMethods sampleEmployees in
  let ds' := dailySummary ([sale "cash" "50.00"] ++ [sale "card" "20.00"])
                          samplePaymentMethods sampleEmployees in
  totalRevenue ds = totalRevenue ds'
  ∧ totalSubtotal ds = totalSubtotal ds'
  ∧ totalTax ds = totalTax ds'
  ∧ paymentSummary ds = paymentSummary ds'
  ∧ employeeStats ds = employeeStats ds'
  ∧ deliveredInvoices ds = deliveredInvoices ds'
  ∧ totalInvoices ds = S (totalInvoices ds')
  ∧ pendingInvoices ds =
      (if isPending pendingInv then S (pendingInvoices ds')
       else pendingInvoices ds').
Proof.
  apply (undelivered_invoice_ignored [sale "cash" "50.00"] [sale "card" "20.00"]).
  reflexivity.
Defined.

(** X6: one more delivered invoice, after the others, adds one to the
    delivered count, its total to the revenue, and one sale with its
    total to the entry of the payment-method name it resolves to, which
    is there; the other entries and the keys stay as they were. *)
Theorem delivered_invoice_appended
    (l : list Invoice) (inv : Invoice)
    (paymentMethods : list PaymentMethod) (employees : list Employee) :
  isDelivered inv = true ->
  let ds := dailySummary (l ++ [inv]) paymentMethods employees in
  let ds0 := dailySummary l paymentMethods employees in
  let name := methodName paymentMethods inv in
  deliveredInvoices ds = S (deliveredInvoices ds0)
  ∧ totalRevenue ds = JS.add (totalRevenue ds0) (JS.parseFloat (total inv))
  ∧ (exists e0,
       Obj.get (paymentSummary ds0) name = Some e0
       ∧ Obj.get (paymentSummary ds) name =
           Some {| quantity := S (quantity e0);
                   pe_total := JS.add (pe_total e0)
                                 (JS.parseFloat (total inv)) |})
  ∧ (forall k, k ≠ name ->
       Obj.get (paymentSummary ds) k = Obj.get (paymentSummary ds0) k)
  ∧ Obj.keys (paymentSummary ds) = Obj.keys (paymentSummary ds0)
  ∧ employeeStats ds = addEmployee employees (employeeStats ds0) inv.
Proof.
  intros Hd ds ds0 name. subst ds ds0. simpl.
  assert (List.filter isDelivered (l ++ [inv])
          = (List.filter isDelivered l ++ [inv])%list) as ->.
  { rewrite List.filter_app. simpl. by rewrite Hd. }
  unfold sumField. rewrite !foldl_app, length_app. simpl.
  set (ps0 := foldl (addPayment paymentMethods)
                    (seedPaymentSummary paymentMethods)
                    (List.filter isDelivered l)).
  assert (is_Some (Obj.get ps0 name)) as [e0 He0].
  { unfold ps0. rewrite paymentSummary_get, decide_True; [done|].
    apply methodName_seeded. }
  split; [lia|]. split; [done|]. split; [|split; [|split]].
  - exists e0. split; [done|]. unfold addPayment. fold name.
    rewrite He0. apply get_set_eq.
  - intros k Hk. unfold addPayment. fold name. rewrite He0.
    by apply get_set_ne.
  - apply addPayment_keys.
  - done.
Qed.

Lemma delivered_invoice_appended_witness :
  let ds := dailySummary ([sale "card" "20.00"] ++ [sale "cash" "50.00"])
                         samplePaymentMethods sampleEmployees in
  let ds0 := dailySummary [sale "card" "20.00"]
                          samplePaymentMethods sampleEmployees in
  let name := methodName samplePaymentMethods (sale "cash" "50.00") in
  deliveredInvoices ds = S (deliveredInvoices ds0)
  ∧ totalRevenue ds = JS.add (totalRevenue ds0) (JS.parseFloat "50.00")
  ∧ (exists e0,
       Obj.get (paymentSummary ds0) name = Some e0
       ∧ Obj.get (paymentSummary ds) name =
           Some {| quantity := S (quantity e0);
                   pe_total := JS.add (pe_total e0) (JS.parseFloat "50.00") |})
  ∧ (forall k, k ≠ name ->
       Obj.get (paymentSummary ds) k = Obj.get (paymentSummary ds0) k)
  ∧ Obj.keys (paymentSummary ds) = Obj.keys (paymentSummary ds0)
  ∧ employeeStats ds
    = addEmployee sampleEmployees (employeeStats ds0) (sale "cash" "50.00").
Proof.
  apply (delivered_invoice_appended [sale "card" "20.00"] (sale "cash" "50.00")).
  reflexivity.
Defined.

(** X7: the counts do not depend on the order of the invoices: the
    total, delivered and pending counts, the quantity of every entry of
    the payment summary and the sales of every employee entry are the
    same for two lists with the same invoices. *)
Theorem counts_order_independent
    (l l' : list Invoice)
    (paymentMethods : list PaymentMethod) (employees : list Employee) :
  l ≡ₚ l' ->
  let ds := dailySummary l paymentMethods employees in
  let ds' := dailySummary l' paymentMethods employees in
  totalInvoices ds = totalInvoices ds'
  ∧ deliveredInvoices ds = deliveredInvoices ds'
  ∧ pendingInvoices ds = pendingInvoices ds'
  ∧ (forall k, quantity <$> Obj.get (paymentSummary ds) k
               = quantity <$> Obj.get (paymentSummary ds') k)
  ∧ (forall k, sales <$> Obj.get (employeeStats ds) k
               = sales <$> Obj.get (employeeStats ds') k).
Proof.
  intros Hp. simpl.
  pose proof (filter_Permutation_bool isDelivered _ _ Hp) as Hd.
  pose proof (filter_Permutation_bool isPending _ _ Hp) as Hpe.
  split; [by apply Permutation_length|].
  split; [by apply Permutation_length|].
  split; [by apply Permutation_length|]. split.
  - intros k. rewrite !paymentSummary_get.
    destruct (decide _); [|done]. simpl. f_equal.
    by apply Permutation_length, group_Permutation.
  - intros k. rewrite !employeeStats_get.
    destruct (Obj.inherited k); [done|].
    pose proof (group_Permutation (employeeName employees) _ _ k Hd) as Hg.
    unfold employeeBucket.
    destruct (group (employeeName employees) (List.filter isDelivered l) k),
             (group (employeeName employees) (List.filter isDelivered l') k);
      try done.
    + by apply Permutation_nil_cons in Hg.
    + symmetry in Hg. by apply Permutation_nil_cons in Hg.
    + simpl. f_equal. by apply Permutation_length in Hg.
Qed.

Lemma counts_order_independent_witness :
  let l := [sale "cash" "0.10"; sale "card" "0.20"; sale "cash" "0.30"] in
  let l' := [sale "card" "0.20"; sale "cash" "0.30"; sale "cash" "0.10"] in
  let ds := dailySummary l samplePaymentMethods sampleEmployees in
  let ds' := dailySummary l' samplePaymentMethods sampleEmployees in
  totalInvoices ds = totalInvoices ds'
  ∧ deliveredInvoices ds = deliveredInvoices ds'
  ∧ pendingInvoices ds = pendingInvoices ds'
  ∧ (forall k, quantity <$> Obj.get (paymentSummary ds) k
               = quantity <$> Obj.get (paymentSummary ds') k)
  ∧ (forall k, sales <$> Obj.get (employeeStats ds) k
               = sales <$> Obj.get (employeeStats ds') k).
Proof.
  apply counts_order_independent.
  apply (Permutation_cons_append [_; _]).
Defined.

(** ** The system cash *)

Lemma find_ext_bool {A} (p q : A -> bool) (l : list A) :
  (forall x, p x = q x) -> List.find p l = List.find q l.
Proof.
  intros H. induction l as [|x l IH]; simpl; [done|]. by rewrite H, IH.
Qed.

Lemma systemCash_group
    (invoices : list Invoice) (paymentMethods : list PaymentMethod)
    (employees : list Employee) (openingCash : string)
    (cashMethod : PaymentMethod) :
  List.find (fun m => String.eqb (code m) "cash") paymentMethods
    = Some cashMethod ->
  systemCash openingCash
    (paymentSummary (dailySummary invoices paymentMethods employees))
    paymentMethods =
    JS.add (JS.parseFloat openingCash)
      (JS.or_zero
         (sumField total
            (group (methodName paymentMethods)
                   (List.filter isDelivered invoices) (pm_name cashMethod)))).
Proof.
  intros Hfind. simpl.
  rewrite systemCash_find, Hfind, paymentSummary_get.
  rewrite decide_True; [done|].
  apply method_seeded. apply List.find_some in Hfind as [Hin _].
  by apply list_elem_of_In.
Qed.

(** X8: with a cash method configured, the system cash is the parsed
    opening cash plus the left-to-right sum of the totals of the
    delivered invoices that resolve to the name of that method (plus 0
    when that sum is NaN or zero); the invoices paid with the code [cash]
    are among them when that name is not empty. *)
Theorem systemCash_from_invoices
    (invoices : list Invoice) (paymentMethods : list PaymentMethod)
    (employees : list Employee) (openingCash : string)
    (cashMethod : PaymentMethod) :
  List.find (fun m => String.eqb (code m) "cash") paymentMethods
    = Some cashMethod ->
  let ds := dailySummary invoices paymentMethods employees in
  let delivered := List.filter isDelivered invoices in
  systemCash openingCash (paymentSummary ds) paymentMethods =
    JS.add (JS.parseFloat openingCash)
      (JS.or_zero
         (sumField total
            (group (methodName paymentMethods) delivered (pm_name cashMethod))))
  ∧ (forall inv,
       paymentMethod inv = Some "cash" -> pm_name cashMethod ≠ "" ->
       methodName paymentMethods inv = pm_name cashMethod).
Proof.
  intros Hfind ds delivered. subst ds delivered. split.
  - by apply systemCash_group.
  - intros inv Hpm Hname. unfold methodName. rewrite Hpm.
    rewrite (find_ext_bool _ (fun m => String.eqb (code m) "cash")).
    + rewrite Hfind. by destruct (pm_name cashMethod).
    + intros m. destruct (String.eqb_spec (code m) "cash") as [->|Hne].
      * by apply bool_decide_eq_true.
      * apply bool_decide_eq_false. congruence.
Qed.

Lemma systemCash_from_invoices_witness :
  let invoices := [sale "cash" "50.00"; sale "card" "20.00"] in
  let ds := dailySummary invoices samplePaymentMethods sampleEmployees in
  let delivered := List.filter isDelivered invoices in
  let cashMethod := {| code := "cash"; pm_name := "Efectivo" |} in
  systemCash "100.00" (paymentSummary ds) samplePaymentMethods =
    JS.add (JS.parseFloat "100.00")
      (JS.or_zero
         (sumField total
            (group (methodName samplePaymentMethods) delivered
                   (pm_name cashMethod))))
  ∧ (forall inv,
       paymentMethod inv = Some "cash" -> pm_name cashMethod ≠ "" ->
       methodName samplePaymentMethods inv = pm_name cashMethod).
Proof.
  apply (systemCash_from_invoices [sale "cash" "50.00"; sale "card" "20.00"]).
  reflexivity.
Defined.

(** X9: an invoice that is not delivered, or that resolves to another
    name than that of the cash method, does not change the system
    cash. *)
Theorem systemCash_ignores_other_sales
    (l1 l2 : list Invoice) (inv : Invoice)
    (paymentMethods : list PaymentMethod) (employees : list Employee)
    (openingCash : string) :
  (isDelivered inv = false
   ∨ forall m, List.find (fun m => String.eqb (code m) "cash") paymentMethods
                 = Some m ->
               methodName paymentMethods inv ≠ pm_name m) ->
  systemCash openingCash
    (paymentSummary (dailySummary (l1 ++ inv :: l2) paymentMethods employees))
    paymentMethods
  = systemCash openingCash
      (paymentSummary (dailySummary (l1 ++ l2) paymentMethods employees))
      paymentMethods.
Proof.
  intros H.
  destruct (List.find (fun m => String.eqb (code m) "cash") paymentMethods)
    as [m|] eqn:Hfind.
  - rewrite !(systemCash_group _ _ employees openingCash m Hfind).
    do 2 f_equal. rewrite !List.filter_app. simpl.
    destruct (isDelivered inv) eqn:Hd; [|done].
    destruct H as [?|H]; [done|].
    rewrite !group_app. rewrite group_cons_ne; [done|]. by apply H.
  - by rewrite !systemCash_find, Hfind.
Qed.

Lemma systemCash_ignores_other_sales_witness :
  systemCash "100.00"
    (paymentSummary
       (dailySummary ([sale "cash" "50.00"] ++ sale "card" "20.00" :: [])
                     samplePaymentMethods sampleEmployees))
    samplePaymentMethods
  = systemCash "100.00"
      (paymentSummary
         (dailySummary ([sale "cash" "50.00"] ++ [])
                       samplePaymentMethods sampleEmployees))
      samplePaymentMethods.
Proof.
  apply systemCash_ignores_other_sales.
  right. intros m [= <-]. vm_compute. discriminate.
Defined.

(** ** Calendar dates and days *)

Section Calendar.

Lemma doe_bounds (doe : Z) :
  0 <= doe <= 146096 ->
  let yoe := (doe - doe / 1460 + doe / 36524 - doe / 146096) / 365 in
  let doy := doe - (365 * yoe + yoe / 4 - yoe / 100) in
  0 <= yoe <= 399 ∧ 0 <= doy <= 365.
Proof.
  intros H yoe doy. subst doy yoe.
  assert (doe < 36524 ∨ (36524 <= doe ∧ doe < 73048)
          ∨ (73048 <= doe ∧ doe < 109572)
          ∨ (109572 <= doe ∧ doe < 146096) ∨ doe = 146096)
    as [?|[?|[?|[?|?]]]] by lia.
  all: Z.to_euclidean_division_equations; lia.
Qed.

(** [ISODate.civil] gives a month and a day of the month, a year of at
    most six digits for the days a [Date] can hold, and the day number
    can be computed back from the date. *)
Lemma civil_inverse (z : Z) :
  let '(y, m, d) := ISODate.civil z in
  daysFromCivil y m d = z ∧ 1 <= m <= 12 ∧ 1 <= d <= 31
  ∧ (validDay z -> -999999 <= y <= 999999).
Proof.
  unfold ISODate.civil, validDay.
  set (z' := z + 719468). set (era := z' / 146097).
  set (doe := z' - era * 146097).
  assert (0 <= doe <= 146096) as Hdoe
    by (subst doe era; Z.to_euclidean_division_equations; lia).
  pose proof (doe_bounds doe Hdoe) as Hok. cbv zeta in Hok.
  set (yoe := (doe - doe / 1460 + doe / 36524 - doe / 146096) / 365) in *.
  set (doy := doe - (365 * yoe + yoe / 4 - yoe / 100)) in *.
  destruct Hok as [Hyoe Hdoy].
  set (mp := (5 * doy + 2) / 153).
  assert (0 <= mp <= 11) as Hmp
    by (subst mp; Z.to_euclidean_division_equations; lia).
  set (d := doy - (153 * mp + 2) / 5 + 1).
  assert (1 <= d <= 31) as Hd
    by (subst d mp; Z.to_euclidean_division_equations; lia).
  assert (validDay z -> -300000 <= era <= 300000) as Hera.
  { unfold validDay. intros Hz. subst era z'.
    Z.to_euclidean_division_equations; lia. }
  unfold daysFromCivil.
  destruct (mp <? 10) eqn:E; [apply Z.ltb_lt in E|apply Z.ltb_ge in E].
  - replace (mp + 3 <=? 2) with false by (symmetry; apply Z.leb_gt; lia).
    replace (2 <? mp + 3) with true by (symmetry; apply Z.ltb_lt; lia).
    replace (yoe + era * 400 + 0) with (yoe + era * 400) by lia.
    replace ((yoe + era * 400) / 400) with era
      by (Z.to_euclidean_division_equations; lia).
    replace (mp + 3 - 3) with mp by lia.
    split; [|split; [lia|split; [lia|]]].
    + subst d doy doe z'. Z.to_euclidean_division_equations; lia.
    + intros Hz. specialize (Hera Hz). lia.
  - replace (mp - 9 <=? 2) with true by (symmetry; apply Z.leb_le; lia).
    replace (2 <? mp - 9) with false by (symmetry; apply Z.ltb_ge; lia).
    replace (yoe + era * 400 + 1 - 1) with (yoe + era * 400) by lia.
    replace ((yoe + era * 400) / 400) with era
      by (Z.to_euclidean_division_equations; lia).
    replace (mp - 9 + 9) with mp by lia.
    split; [|split; [lia|split; [lia|]]].
    + subst d doy doe z'. Z.to_euclidean_division_equations; lia.
    + intros Hz. specialize (Hera Hz). lia.
Qed.

Lemma digitValue_digit (n : Z) : digitValue (ISODate.digit n) = n mod 10.
Proof.
  unfold digitValue, ISODate.digit.
  pose proof (Z.mod_pos_bound n 10 ltac:(lia)) as Hr.
  rewrite N_ascii_embedding by lia. lia.
Qed.

Lemma pad_2 (n : Z) :
  ISODate.pad 2 n = String (ISODate.digit (n / 10)) (String (ISODate.digit n) "").
Proof. reflexivity. Qed.

Lemma pad_4 (n : Z) :
  ISODate.pad 4 n =
  String (ISODate.digit (n / 10 / 10 / 10))
    (String (ISODate.digit (n / 10 / 10))
       (String (ISODate.digit (n / 10)) (String (ISODate.digit n) ""))).
Proof. reflexivity. Qed.

Lemma pad_6 (n : Z) :
  ISODate.pad 6 n =
  String (ISODate.digit (n / 10 / 10 / 10 / 10 / 10))
    (String (ISODate.digit (n / 10 / 10 / 10 / 10))
       (String (ISODate.digit (n / 10 / 10 / 10))
          (String (ISODate.digit (n / 10 / 10))
             (String (ISODate.digit (n / 10)) (String (ISODate.digit n) ""))))).
Proof. reflexivity. Qed.

End Calendar.

(** The digits behind equal characters. *)
Ltac digits_of_chars :=
  repeat match goal with
  | H : ISODate.digit _ = _ |- _ =>
      apply (f_equal digitValue) in H; rewrite ?digitValue_digit in H;
      change (digitValue "-") with (-3) in H;
      change (digitValue "+") with (-5) in H
  | H : _ = ISODate.digit _ |- _ => symmetry in H
  end.

(** A date string determines its year, month and day. *)
Lemma date_string_inj (y m d y' m' d' : Z) :
  -999999 <= y <= 999999 -> 1 <= m <= 12 -> 1 <= d <= 31 ->
  -999999 <= y' <= 999999 -> 1 <= m' <= 12 -> 1 <= d' <= 31 ->
  ISODate.year_string y ++ "-" ++ ISODate.pad 2 m ++ "-" ++ ISODate.pad 2 d
  = ISODate.year_string y' ++ "-" ++ ISODate.pad 2 m' ++ "-" ++ ISODate.pad 2 d' ->
  y = y' ∧ m = m' ∧ d = d'.
Proof.
  intros Hy Hm Hd Hy' Hm' Hd'. unfold ISODate.year_string.
  rewrite !pad_2, !pad_4, !pad_6.
  destruct (andb (0 <=? y) (y <=? 9999)) eqn:Ey;
    destruct (andb (0 <=? y') (y' <=? 9999)) eqn:Ey';
    try destruct (y <? 0) eqn:Ny; try destruct (y' <? 0) eqn:Ny';
    cbv [String.append]; intros H; simplify_eq; digits_of_chars;
    repeat match goal with
    | H : andb _ _ = true |- _ => apply andb_true_iff in H as [? ?]
    | H : andb _ _ = false |- _ => apply andb_false_iff in H
    end;
    try (pose proof (Z.mod_pos_bound (y / 10 / 10 / 10) 10 ltac:(lia));
         pose proof (Z.mod_pos_bound (y' / 10 / 10 / 10) 10 ltac:(lia));
         pose proof (Z.mod_pos_bound (y / 10 / 10) 10 ltac:(lia));
         pose proof (Z.mod_pos_bound (y' / 10 / 10) 10 ltac:(lia));
         pose proof (Z.mod_pos_bound (y / 10) 10 ltac:(lia));
         pose proof (Z.mod_pos_bound (y' / 10) 10 ltac:(lia));
         lia);
    Z.to_euclidean_division_equations; lia.
Qed.

Lemma utcDateString_inj (z z' : Z) :
  validDay z -> validDay z' -> utcDateString z = utcDateString z' -> z = z'.
Proof.
  intros Hz Hz'. unfold utcDateString.
  pose proof (civil_inverse z) as H. pose proof (civil_inverse z') as H'.
  destruct (ISODate.civil z) as [[y m] d].
  destruct (ISODate.civil z') as [[y' m'] d'].
  destruct H as (Hinv & Hm & Hd & Hy). destruct H' as (Hinv' & Hm' & Hd' & Hy').
  intros Heq.
  apply date_string_inj in Heq as (-> & -> & ->); auto. congruence.
Qed.

Lemma validTime_day (t : Z) : validTime t -> validDay (t / 86400000).
Proof.
  unfold validTime, validDay. intros H.
  Z.to_euclidean_division_equations; lia.
Qed.

(** ** The invoices of a date *)

Lemma fetchInvoices_filter (data : list Invoice) (selectedDate : string) :
  fetchInvoices data selectedDate =
    if existsb hasInvalidDate data then Throw RangeError
    else Normal (List.filter (utcDateFilter selectedDate) data).
Proof.
  unfold fetchInvoices.
  induction data as [|inv data IH]; simpl; [done|].
  rewrite dateFilter_utc. destruct (hasInvalidDate inv); simpl; [done|].
  rewrite IH. by destruct (existsb hasInvalidDate data).
Qed.

Lemma fetchInvoices_Normal (data r : list Invoice) (selectedDate : string) :
  fetchInvoices data selectedDate = Normal r ->
  existsb hasInvalidDate data = false
  ∧ r = List.filter (utcDateFilter selectedDate) data.
Proof.
  rewrite fetchInvoices_filter.
  destruct (existsb hasInvalidDate data); [done|]. by intros [= <-].
Qed.

Lemma utcDateFilter_true (selectedDate : string) (inv : Invoice) :
  utcDateFilter selectedDate inv = true <->
  exists t, date inv = DateAt t ∧ invoiceDate t = selectedDate.
Proof.
  unfold utcDateFilter. destruct (date inv) as [| |t]; split; try done.
  - intros (t & ? & _). done.
  - intros (t & ? & _). done.
  - intros H. exists t. split; [done|].
    rewrite invoiceDate_utc. by apply String.eqb_eq.
  - intros (t' & [= <-] & H). rewrite invoiceDate_utc in H.
    by apply String.eqb_eq.
Qed.

Lemma sublist_filter_bool {A} (p : A -> bool) (l : list A) :
  List.filter p l `sublist_of` l.
Proof.
  induction l as [|x l IH]; simpl; [constructor|].
  destruct (p x); by constructor.
Qed.

Lemma filter_filter_bool {A} (p : A -> bool) (l : list A) :
  List.filter p (List.filter p l) = List.filter p l.
Proof.
  induction l as [|x l IH]; simpl; [done|].
  destruct (p x) eqn:E; simpl; [|done]. by rewrite E, IH.
Qed.

Lemma existsb_filter_false {A} (p q : A -> bool) (l : list A) :
  existsb p l = false -> existsb p (List.filter q l) = false.
Proof.
  induction l as [|x l IH]; simpl; [done|].
  intros [Hx Hl]%orb_false_iff.
  destruct (q x); simpl; [rewrite Hx|]; by apply IH.
Qed.

(** X10: when the query of a date returns, what it returns is a
    sublist of the data in the same order; every invoice of it has a
    date, which reads as the selected date; no invoice of the data has an
    unreadable date; and filtering the result again changes nothing. *)
Theorem fetchInvoices_result
    (data r : list Invoice) (selectedDate : string) :
  fetchInvoices data selectedDate = Normal r ->
  r `sublist_of` data
  ∧ (forall inv, inv ∈ r ->
       exists t, date inv = DateAt t ∧ invoiceDate t = selectedDate)
  ∧ (forall inv, inv ∈ data -> date inv ≠ DateInvalid)
  ∧ fetchInvoices r selectedDate = Normal r.
Proof.
  intros [Hinv ->]%fetchInvoices_Normal.
  split; [apply sublist_filter_bool|]. split; [|split].
  - intros inv Hin. apply list_elem_of_In, List.filter_In in Hin as [_ Hin].
    by apply utcDateFilter_true.
  - intros inv Hin Hd.
    apply not_true_iff_false in Hinv. apply Hinv.
    apply List.existsb_exists. exists inv.
    split; [by apply list_elem_of_In|]. unfold hasInvalidDate. by rewrite Hd.
  - rewrite fetchInvoices_filter, existsb_filter_false by done.
    by rewrite filter_filter_bool.
Qed.

Lemma fetchInvoices_result_witness :
  [lateInvoice] `sublist_of` [sale "cash" "1.00"; lateInvoice]
  ∧ (forall inv, inv ∈ [lateInvoice] ->
       exists t, date inv = DateAt t ∧ invoiceDate t = "2024-01-15")
  ∧ (forall inv, inv ∈ [sale "cash" "1.00"; lateInvoice] ->
       date inv ≠ DateInvalid)
  ∧ fetchInvoices [lateInvoice] "2024-01-15" = Normal [lateInvoice].
Proof.
  apply (fetchInvoices_result [sale "cash" "1.00"; lateInvoice]).
  reflexivity.
Defined.

(** X11: no invoice is in the results of two different dates. *)
Theorem fetchInvoices_dates_disjoint
    (data r1 r2 : list Invoice) (date1 date2 : string) (inv : Invoice) :
  date1 ≠ date2 ->
  fetchInvoices data date1 = Normal r1 ->
  fetchInvoices data date2 = Normal r2 ->
  ¬ (inv ∈ r1 ∧ inv ∈ r2).
Proof.
  intros Hne [_ ->]%fetchInvoices_Normal [_ ->]%fetchInvoices_Normal [H1 H2].
  apply list_elem_of_In, List.filter_In in H1 as [_ H1].
  apply list_elem_of_In, List.filter_In in H2 as [_ H2].
  apply utcDateFilter_true in H1 as (t & Ht & <-).
  apply utcDateFilter_true in H2 as (t' & Ht' & <-).
  congruence.
Qed.

Lemma fetchInvoices_dates_disjoint_witness :
  ¬ (lateInvoice ∈ [lateInvoice] ∧ lateInvoice ∈ [earlyInvoice]).
Proof.
  apply (fetchInvoices_dates_disjoint [earlyInvoice; lateInvoice]
           [lateInvoice] [earlyInvoice] "2024-01-15" "2024-01-14");
    [discriminate|reflexivity|reflexivity].
Defined.

(** X12: for the time values a [Date] can hold, the date the filter
    compares is the date string of a day exactly when the time value
    falls in that UTC day; the first selected date is the date string of
    the UTC day of the current time. *)
Theorem invoiceDate_day (t day : Z) :
  validTime t -> validDay day ->
  (invoiceDate t = utcDateString day <-> t / 86400000 = day)
  ∧ (t / 86400000 = day <->
     day * 86400000 <= t < (day + 1) * 86400000)
  ∧ initialSelectedDate t = utcDateString (t / 86400000).
Proof.
  intros Ht Hday. split; [|split].
  - rewrite invoiceDate_utc. unfold ISODate.Day, ISODate.msPerDay. split.
    + apply utcDateString_inj; [by apply validTime_day|done].
    + by intros ->.
  - Z.to_euclidean_division_equations; lia.
  - apply invoiceDate_utc.
Qed.

Lemma invoiceDate_day_witness :
  (invoiceDate 1705363199999 = utcDateString 19737
   <-> 1705363199999 / 86400000 = 19737)
  ∧ (1705363199999 / 86400000 = 19737 <->
     19737 * 86400000 <= 1705363199999 < (19737 + 1) * 86400000)
  ∧ initialSelectedDate 1705363199999
    = utcDateString (1705363199999 / 86400000).
Proof.
  apply invoiceDate_day; unfold validTime, validDay; lia.
Defined.

(** X13: the query for the date string of a day keeps exactly the
    invoices of the data whose time value lies in that UTC day, from
    midnight UTC to the next. *)
Theorem fetchInvoices_utc_day
    (data r : list Invoice) (day : Z) (inv : Invoice) :
  validDay day ->
  (forall inv t, inv ∈ data -> date inv = DateAt t -> validTime t) ->
  fetchInvoices data (utcDateString day) = Normal r ->
  inv ∈ r <->
  inv ∈ data
  ∧ exists t, date inv = DateAt t
              ∧ day * 86400000 <= t < (day + 1) * 86400000.
Proof.
  intros Hday Hvalid [_ ->]%fetchInvoices_Normal.
  rewrite list_elem_of_In, List.filter_In, <- list_elem_of_In.
  rewrite utcDateFilter_true. split.
  - intros (Hin & t & Ht & Heq). split; [done|]. exists t. split; [done|].
    pose proof (Hvalid inv t Hin Ht) as Hvt.
    rewrite invoiceDate_utc in Heq. unfold ISODate.Day, ISODate.msPerDay in Heq.
    apply utcDateString_inj in Heq; [|by apply validTime_day|done].
    Z.to_euclidean_division_equations; lia.
  - intros (Hin & t & Ht & Hrange). split; [done|]. exists t. split; [done|].
    rewrite invoiceDate_utc. unfold ISODate.Day, ISODate.msPerDay. f_equal.
    Z.to_euclidean_division_equations; lia.
Qed.

Lemma fetchInvoices_utc_day_witness :
  lateInvoice ∈ [lateInvoice] <->
  lateInvoice ∈ [earlyInvoice; lateInvoice]
  ∧ exists t, date lateInvoice = DateAt t
              ∧ 19737 * 86400000 <= t < (19737 + 1) * 86400000.
Proof.
  apply (fetchInvoices_utc_day [earlyInvoice; lateInvoice] [lateInvoice] 19737).
  - unfold validDay. lia.
  - intros inv t Hin Ht. unfold validTime.
    apply elem_of_cons in Hin as [->|Hin].
    + injection Ht as <-. lia.
    + apply list_elem_of_singleton in Hin as ->. injection Ht as <-. lia.
  - reflexivity.
Defined.

(** ** The variance panel *)

Section Variance.

Lemma sub_nan_r (x : JS.number) : JS.sub x PrimFloat.nan = PrimFloat.nan.
Proof.
  apply Prim2SF_inj. unfold JS.sub. rewrite sub_spec.
  change (Prim2SF PrimFloat.nan) with S754_nan.
  destruct (Prim2SF x); reflexivity.
Qed.

Lemma abs_opp (x : JS.number) :
  PrimFloat.abs (PrimFloat.opp x) = PrimFloat.abs x.
Proof.
  apply Prim2SF_inj. rewrite !abs_spec, opp_spec.
  by destruct (Prim2SF x).
Qed.

Lemma shl_align_same (m : positive) (e : Z) : shl_align m e e = (m, e).
Proof. unfold shl_align. by rewrite Z.sub_diag. Qed.

(** A finite number minus itself is +0. *)
Lemma sub_diag_finite (x : JS.number) :
  PrimFloat.is_finite x = true -> JS.sub x x = PrimFloat.zero.
Proof.
  intros Hfin. apply Prim2SF_inj. unfold JS.sub. rewrite sub_spec.
  change (Prim2SF PrimFloat.zero) with (S754_zero false).
  unfold PrimFloat.is_finite in Hfin.
  apply negb_true_iff, orb_false_iff in Hfin as [Hnan Hinf].
  unfold Prim2SF at 1 2. rewrite Hnan, Hinf.
  destruct (PrimFloat.is_zero x).
  - by destruct (PrimFloat.get_sign x).
  - destruct (Z.frexp x) as [r ex].
    destruct (shr_fexp _ _ _ _ _) as [sh e'].
    destruct (shr_m sh) as [|p|p]; try done.
    unfold SF64sub, SFsub. rewrite Z.min_id, shl_align_same. simpl.
    by rewrite Z.sub_diag.
Qed.

End Variance.

(** X14: a variance that is NaN is shown as a major difference with the
    downward trend; the status of a variance and of its opposite are the
    same; and when the counted cash is a finite number equal to the
    system cash the variance is 0 and the status is balanced. *)
Theorem varianceStatus_spec (v : JS.number) :
  (JS.isNaN v = true ->
     varianceStatus v = "❌ Diferencia Mayor"
     ∧ varianceTrend v = TrendingDown)
  ∧ varianceStatus (PrimFloat.opp v) = varianceStatus v
  ∧ (PrimFloat.is_finite v = true ->
     varianceStatus (JS.sub v v) = "✅ Cuadrado"
     ∧ varianceTrend (JS.sub v v) = TrendingUp).
Proof.
  split; [|split].
  - intros ->%isNaN_eq. by vm_compute.
  - unfold varianceStatus. by rewrite abs_opp.
  - intros ->%sub_diag_finite. by vm_compute.
Qed.

(** X15: with a cash method configured and an opening cash that cannot
    be parsed, the system cash and the variance are NaN, whatever the
    counted cash is, and the panel shows a major difference. *)
Theorem unparsed_opening_cash_shown (st : State) (cashMethod : PaymentMethod) :
  List.find (fun m => String.eqb (code m) "cash") (paymentMethods st)
    = Some cashMethod ->
  JS.isNaN (JS.parseFloat (openingCash st)) = true ->
  r_systemCash (render st) = PrimFloat.nan
  ∧ r_variance (render st) = PrimFloat.nan
  ∧ varianceStatus (r_variance (render st)) = "❌ Diferencia Mayor"
  ∧ varianceTrend (r_variance (render st)) = TrendingDown.
Proof.
  intros Hfind Hnan. unfold render. simpl.
  rewrite systemCash_find, Hfind, (isNaN_eq _ Hnan), add_nan_l.
  unfold variance. rewrite sub_nan_r. by vm_compute.
Qed.

Lemma unparsed_opening_cash_shown_witness :
  r_systemCash (render (formState "abc" "140.00")) = PrimFloat.nan
  ∧ r_variance (render (formState "abc" "140.00")) = PrimFloat.nan
  ∧ varianceStatus (r_variance (render (formState "abc" "140.00")))
    = "❌ Diferencia Mayor"
  ∧ varianceTrend (r_variance (render (formState "abc" "140.00")))
    = TrendingDown.
Proof.
  apply (unparsed_opening_cash_shown (formState "abc" "140.00")
           {| code := "cash"; pm_name := "Efectivo" |}); reflexivity.
Defined.

(** ** The create request *)

(** X16: a create request that the handler sends carries the selected
    date, a counted cash that was entered and is not below 0, an opening
    cash that is never NaN, and notes that are never the empty string. *)
Theorem createRequest_invariants (st : State) (data : CreateData) :
  handleCreateCashClosure st = Mutate data ->
  closingDate data = selectedDate st
  ∧ countedCash st ≠ ""
  ∧ cd_countedCash data = JS.parseFloat (countedCash st)
  ∧ JS.lt (cd_countedCash data) PrimFloat.zero = false
  ∧ JS.isNaN (cd_openingCash data) = false
  ∧ cd_notes data ≠ Some ""
  ∧ (cd_notes data = None <-> notes st = "").
Proof.
  unfold handleCreateCashClosure.
  destruct (countedCash st) as [|c s] eqn:Hc; simpl; [done|].
  destruct (JS.lt _ _) eqn:Hlt; [done|]. intros [= <-]. simpl.
  repeat split; try done.
  - unfold JS.or_zero, JS.truthy, JS.isNaN.
    destruct (PrimFloat.is_nan (JS.parseFloat (openingCash st))) eqn:E;
      simpl; [done|].
    by destruct (PrimFloat.is_zero _); simpl.
  - by destruct (notes st).
  - by destruct (notes st).
  - by intros ->.
Qed.

Lemma createRequest_invariants_witness :
  let st := formState "100.00" "140.00" in
  let data := {| closingDate := "2024-01-15";
                 cd_openingCash := JS.parseFloat "100.00";
                 cd_countedCash := JS.parseFloat "140.00";
                 cd_notes := None |} in
  closingDate data = selectedDate st
  ∧ countedCash st ≠ ""
  ∧ cd_countedCash data = JS.parseFloat (countedCash st)
  ∧ JS.lt (cd_countedCash data) PrimFloat.zero = false
  ∧ JS.isNaN (cd_openingCash data) = false
  ∧ cd_notes data ≠ Some ""
  ∧ (cd_notes data = None <-> notes st = "").
Proof.
  apply (createRequest_invariants (formState "100.00" "140.00")).
  reflexivity.
Defined.

(** ** The payment rows *)

Lemma NoDup_fmap_inj {A B} (f : A -> B) (l : list A) (x y : A) :
  NoDup (f <$> l) -> x ∈ l -> y ∈ l -> f x = f y -> x = y.
Proof.
  induction l as [|a l IH]; csimpl; intros Hnd Hx Hy Hf.
  - by apply elem_of_nil in Hx.
  - apply NoDup_cons in Hnd as [Ha Hnd].
    apply elem_of_cons in Hx as [->|Hx]; apply elem_of_cons in Hy as [->|Hy].
    + done.
    + exfalso. apply Ha. rewrite Hf. apply list_elem_of_fmap. by exists y.
    + exfalso. apply Ha. rewrite <- Hf. apply list_elem_of_fmap. by exists x.
    + by apply IH.
Qed.

(** X17: when the payment methods have distinct names, the row of a
    delivered invoice whose code is that of a method with a non-empty
    name and code is drawn with the icon of that code; and whenever no
    method is named [Pendiente], the row [Pendiente] is drawn with the
    clock. *)
Theorem row_icon_spec
    (paymentMethods : list PaymentMethod) (inv : Invoice)
    (method : PaymentMethod) :
  (NoDup (pm_name <$> paymentMethods) ->
   List.find (fun m => bool_decide (Some (code m) = paymentMethod inv))
             paymentMethods = Some method ->
   pm_name method ≠ "" -> code method ≠ "" ->
   rowMethodCode paymentMethods (methodName paymentMethods inv) = code method)
  ∧ ("Pendiente" ∉ pm_name <$> paymentMethods ->
     rowMethodCode paymentMethods "Pendiente" = "pending"
     ∧ getPaymentMethodIcon (rowMethodCode paymentMethods "Pendiente") = Clock).
Proof.
  split.
  - intros Hnd Hfind Hname Hcode.
    unfold methodName. rewrite Hfind.
    destruct (pm_name method) as [|c n] eqn:En; [done|]. simpl.
    rewrite <- En. unfold rowMethodCode.
    apply List.find_some in Hfind as [Hin _].
    destruct (List.find (fun m => String.eqb (pm_name m) (pm_name method))
                        paymentMethods) as [m'|] eqn:Hfind'.
    + apply List.find_some in Hfind' as [Hin' Heq].
      apply String.eqb_eq in Heq.
      assert (m' = method) as ->.
      { apply (NoDup_fmap_inj pm_name paymentMethods);
          [done|by apply list_elem_of_In|by apply list_elem_of_In|done]. }
      by destruct (code method).
    + exfalso. apply (List.find_none _ _ Hfind') in Hin.
      by rewrite String.eqb_refl in Hin.
  - intros Hpend. unfold rowMethodCode.
    destruct (List.find (fun m => String.eqb (pm_name m) "Pendiente")
                        paymentMethods) as [m'|] eqn:Hfind'; [|done].
    exfalso. apply List.find_some in Hfind' as [Hin' Heq].
    apply String.eqb_eq in Heq. apply Hpend.
    apply list_elem_of_fmap. exists m'. split; [done|].
    by apply list_elem_of_In.
Qed.

(** The card row of the sample methods is drawn with the card, and
    their row [Pendiente] with the clock. *)
Example row_icon_sample :
  getPaymentMethodIcon
    (rowMethodCode samplePaymentMethods
       (methodName samplePaymentMethods (sale "card" "20.00"))) = CreditCard
  ∧ getPaymentMethodIcon (rowMethodCode samplePaymentMethods "Pendiente")
    = Clock.
Proof. by vm_compute. Qed.

(** ** Escaping *)

Lemma noAngle_app (a b : string) : noAngle (a ++ b) = noAngle a && noAngle b.
Proof.
  induction a as [|c a IH]; simpl; [done|]. rewrite IH. by rewrite !andb_assoc.
Qed.

Lemma escapeHtml_nonempty (c : ascii) (rest : string) :
  escapeHtml (String c rest) ≠ "".
Proof.
  simpl. repeat (destruct (Ascii.eqb c _); [done|]).
  destruct rest as [|c2 rest2]; [done|]. by destruct (isNbsp c c2).
Qed.

(** How the escaped text of a non-empty text starts. *)
Lemma escapeHtml_cons (c : ascii) (rest : string) :
  (c = "&"%char ∧ escapeHtml (String c rest) = "&amp;" ++ escapeHtml rest)
  ∨ (c = "<"%char ∧ escapeHtml (String c rest) = "&lt;" ++ escapeHtml rest)
  ∨ (c = ">"%char ∧ escapeHtml (String c rest) = "&gt;" ++ escapeHtml rest)
  ∨ (exists rest2,
       c = ascii_of_N 194 ∧ rest = String (ascii_of_N 160) rest2
       ∧ escapeHtml (String c rest) = "&nbsp;" ++ escapeHtml rest2)
  ∨ (c ≠ "&"%char
     ∧ escapeHtml (String c rest) = String c (escapeHtml rest)).
Proof.
  simpl.
  destruct (Ascii.eqb_spec c "&") as [->|H1]; [by left|].
  destruct (Ascii.eqb_spec c "<") as [->|H2]; [by right; left|].
  destruct (Ascii.eqb_spec c ">") as [->|H3]; [by right; right; left|].
  destruct rest as [|c2 rest2]; [by right; right; right; right|].
  destruct (isNbsp c c2) eqn:E4.
  - right; right; right; left. exists rest2.
    apply andb_true_iff in E4 as [->%Ascii.eqb_eq ->%Ascii.eqb_eq]. done.
  - by right; right; right; right.
Qed.

Lemma length_append (a b : string) :
  String.length (a ++ b) = (String.length a + String.length b)%nat.
Proof. induction a as [|c a IH]; simpl; [done|]. by rewrite IH. Qed.

(** Escaping never shortens a text. *)
Lemma escapeHtml_length (text : string) :
  (String.length text <= String.length (escapeHtml text))%nat.
Proof.
  assert (forall n text, (String.length text <= n)%nat ->
            (String.length text <= String.length (escapeHtml text))%nat) as H;
    [|by apply (H (String.length text))].
  clear text. induction n as [|n IH]; intros text Hlen.
  - destruct text; [done|simpl in Hlen; lia].
  - destruct text as [|c rest]; [done|]. simpl in Hlen.
    pose proof (IH rest ltac:(lia)) as IH1.
    destruct (escapeHtml_cons c rest)
      as [[-> E]|[[-> E]|[[-> E]|[(r & -> & -> & E)|[N E]]]]];
      rewrite E; try (rewrite length_append; simpl; lia).
    + simpl in Hlen. pose proof (IH r ltac:(lia)) as IH2.
      rewrite length_append. simpl. lia.
    + simpl. lia.
Qed.

(** X18: the escaped text has no [<] and no [>], so it opens and closes
    no tag in the printed page; and the texts that are left as they are
    are exactly those without [&], [<], [>] and no-break space. *)
Theorem escapeHtml_safe (text : string) :
  noAngle (escapeHtml text) = true
  ∧ (escapeHtml text = text <-> plainText text = true).
Proof.
  assert (forall n text, (String.length text <= n)%nat ->
            noAngle (escapeHtml text) = true
            ∧ (escapeHtml text = text <-> plainText text = true)) as H;
    [|by apply (H (String.length text))].
  clear text. induction n as [|n IH]; intros text Hlen.
  - destruct text; [done|simpl in Hlen; lia].
  - destruct text as [|c rest]; [done|]. simpl in Hlen.
    destruct (IH rest ltac:(lia)) as [IH1 IH2].
    pose proof (escapeHtml_length rest) as Hrest.
    cbn [escapeHtml plainText].
    destruct (Ascii.eqb_spec c "&") as [->|E1].
    { split; [by rewrite noAngle_app, IH1|]. split; [|done].
      cbv [String.append]. intros [= Heq].
      apply (f_equal String.length) in Heq. simpl in Heq. lia. }
    destruct (Ascii.eqb_spec c "<") as [->|E2].
    { split; [by rewrite noAngle_app, IH1|]. by split. }
    destruct (Ascii.eqb_spec c ">") as [->|E3].
    { split; [by rewrite noAngle_app, IH1|]. by split. }
    apply Ascii.eqb_neq in E2, E3.
    destruct rest as [|c2 rest2]; [simpl; by rewrite E2, E3|].
    destruct (isNbsp c c2) eqn:E4.
    + simpl in Hlen. destruct (IH rest2 ltac:(lia)) as [IH3 _].
      split; [by rewrite noAngle_app, IH3|]. split; [|done].
      cbv [String.append]. intros [= <- _].
      unfold isNbsp in E4. by apply andb_true_iff in E4 as [? _].
    + split.
      * cbn [noAngle]. by rewrite E2, E3, IH1.
      * cbn [negb andb]. rewrite <- IH2. split.
        -- intros [= Heq]. exact Heq.
        -- by intros ->.
Qed.

(** X19: two different texts are never escaped to the same text. *)
Theorem escapeHtml_inj (text1 text2 : string) :
  escapeHtml text1 = escapeHtml text2 <-> text1 = text2.
Proof.
  split; [|by intros ->].
  assert (forall n text1 text2, (String.length text1 <= n)%nat ->
            escapeHtml text1 = escapeHtml text2 -> text1 = text2) as H;
    [|by apply (H (String.length text1))].
  clear text1 text2. induction n as [|n IH]; intros text1 text2 Hlen Heq.
  - destruct text1; [|simpl in Hlen; lia].
    destruct text2 as [|c rest]; [done|].
    symmetry in Heq. by apply escapeHtml_nonempty in Heq.
  - destruct text1 as [|c1 rest1].
    { destruct text2 as [|c rest]; [done|].
      symmetry in Heq. by apply escapeHtml_nonempty in Heq. }
    destruct text2 as [|c2 rest2]; [by apply escapeHtml_nonempty in Heq|].
    simpl in Hlen.
    destruct (escapeHtml_cons c1 rest1)
      as [[-> E1]|[[-> E1]|[[-> E1]|[(r1 & -> & -> & E1)|[N1 E1]]]]];
    destruct (escapeHtml_cons c2 rest2)
      as [[-> E2]|[[-> E2]|[[-> E2]|[(r2 & -> & -> & E2)|[N2 E2]]]]];
    rewrite E1, E2 in Heq; cbv [String.append] in Heq;
    try discriminate Heq; try (injection Heq as Heq); try congruence;
    try (f_equal; apply IH; [lia|done]).
    + do 2 f_equal. apply IH; [simpl in Hlen; lia|done].
    + subst c2. f_equal. apply IH; [lia|done].
Qed.
